(** * Vast.ai Auto-Shutoff: a shallow embedding of the monitoring engine

    The development follows the two process-monitor scripts of the
    repository:

    - [monitor_process.py]   (module [Monitor]): the command-driven loop
      launched by the GUI, with its command channel, status publisher,
      liveness probe and control-plane client;
    - [vast_auto_shutoff.py] (module [Standalone]): the stand-alone loop.

    Conventions of the embedding.

    - Python [str] values are modelled as [string]; names are taken to be
      ASCII, so [str.lower] is the ASCII lower-casing and [str.strip]
      removes the ASCII white space characters.
    - Wall-clock instants ([datetime.now()], [time.time()]) and durations
      ([timedelta]) are integers counting microseconds, the resolution of
      Python's [datetime] arithmetic.
    - Everything the loop observes from outside (command directory, process
      table, remote API answers, clock readings) is an explicit input of the
      tick in which it is observed. *)

From Stdlib Require Import ZArith List String Ascii Bool Lia.
From stdpp Require Import base gmap strings pretty.
Import ListNotations.

Local Open Scope string_scope.
Local Open Scope Z_scope.

(** ** Python string primitives used by the scripts *)

Module PyStr.

(** [c.isupper()] for an ASCII character. *)
Definition is_upper (c : ascii) : bool :=
  let n := N_of_ascii c in (N.leb 65 n && N.leb n 90)%bool.

Definition lower_ascii (c : ascii) : ascii :=
  if is_upper c then ascii_of_N (N_of_ascii c + 32) else c.

(** [s.lower()] *)
Fixpoint lower (s : string) : string :=
  match s with
  | EmptyString => EmptyString
  | String c s' => String (lower_ascii c) (lower s')
  end.

(** [c.isspace()] for an ASCII character: TAB, LF, VT, FF, CR, the four
    separators 0x1c-0x1f and the space. *)
Definition is_space (c : ascii) : bool :=
  let n := N_of_ascii c in
  ((N.leb 9 n && N.leb n 13) || (N.leb 28 n && N.leb n 32))%bool.

Fixpoint lstrip (s : string) : string :=
  match s with
  | EmptyString => EmptyString
  | String c s' => if is_space c then lstrip s' else s
  end.

Fixpoint rstrip (s : string) : string :=
  match s with
  | EmptyString => EmptyString
  | String c s' =>
      match rstrip s' with
      | EmptyString => if is_space c then EmptyString else String c EmptyString
      | r => String c r
      end
  end.

(** [s.strip()] *)
Definition strip (s : string) : string := rstrip (lstrip s).

(** [s.split(sep)] for a one-character separator: never the empty list,
    and an empty field is kept as the empty string. *)
Fixpoint split (sep : ascii) (s : string) : list string :=
  match s with
  | EmptyString => [EmptyString]
  | String c s' =>
      if Ascii.eqb c sep then EmptyString :: split sep s'
      else match split sep s' with
           | field :: fields => String c field :: fields
           | [] => [String c EmptyString]
           end
  end.

(** [needle in hay] *)
Fixpoint contains (needle hay : string) : bool :=
  (String.prefix needle hay
   || match hay with
      | EmptyString => false
      | String _ hay' => contains needle hay'
      end)%bool.

(** [fnmatch.fnmatchcase(name, pat)] for patterns made of literal
    characters and [*], which is all the command patterns use. *)
Fixpoint fnmatch (pat name : string) : bool :=
  match pat with
  | EmptyString => match name with EmptyString => true | _ => false end
  | String "*" pat' =>
      (fix star (n : string) : bool :=
         (fnmatch pat' n
          || match n with
             | EmptyString => false
             | String _ n' => star n'
             end)%bool) name
  | String p pat' =>
      match name with
      | EmptyString => false
      | String c name' => (Ascii.eqb p c && fnmatch pat' name')%bool
      end
  end.

Definition digit_of (c : ascii) : option Z :=
  let n := N_of_ascii c in
  if (N.leb 48 n && N.leb n 57)%bool then Some (Z.of_N n - 48) else None.

(** The digit part of a base-10 integer literal as [int()] reads it:
    decimal digits in which single underscores may separate digits.
    [after_digit] tells whether the previous character was a digit. *)
Fixpoint digits (acc : Z) (after_digit : bool) (s : string) : option Z :=
  match s with
  | EmptyString => if after_digit then Some acc else None
  | String c s' =>
      match digit_of c with
      | Some d => digits (10 * acc + d) true s'
      | None =>
          if (Ascii.eqb c "_" && after_digit)%bool
          then digits acc false s'
          else None
      end
  end.

(** [int(s)]: [Some n] when the conversion succeeds, [None] when it
    raises [ValueError].  White space around the literal is ignored and
    one sign may precede the digits. *)
Definition int (s : string) : option Z :=
  match strip s with
  | String "-" r => option_map Z.opp (digits 0 false r)
  | String "+" r => digits 0 false r
  | t => digits 0 false t
  end.

(** Truth value of a string: only the empty string is falsy. *)
Definition truthy (s : string) : bool :=
  match s with EmptyString => false | _ => true end.

End PyStr.

(** ** What the scripts observe of their environment *)

(** The exceptions the probes catch around one process. *)
Inductive PsutilError := NoSuchProcess | AccessDenied | ZombieProcess.

(** One item of [psutil.process_iter(['pid', 'name'])]: either its
    [info] can be read, giving the pid and the name, or reading it raises
    one of the [psutil] errors (the process vanished or denies access). *)
Inductive Proc :=
| Named (pid : Z) (name : string)
| Failing (e : PsutilError).

(** The ['label'] entry of an instance object of the API: the key may be
    absent, hold JSON [null], or hold a string. *)
Inductive Label :=
| LabelAbsent
| LabelNull
| LabelStr (s : string).

(** An instance object as far as the scripts read it: the keys ['id'],
    ['instance_id'] and ['label']. *)
Record Instance := {
  inst_id : option Z;
  inst_instance_id : option Z;
  inst_label : Label
}.

(** Outcome of the request [GET /api/v0/instances/]: the request (or the
    decoding of its body) raises, the body has no ['instances'] key, or it
    carries the list of instances. *)
Inductive ApiReply :=
| ApiError
| ApiNoInstancesKey
| ApiInstances (instances : list Instance).

(** Truth value of an optional identifier ([if instance_id:]): [None] and
    [0] are falsy. *)
Definition truthy_id (i : option Z) : option Z :=
  match i with
  | Some n => if Z.eqb n 0 then None else Some n
  | None => None
  end.

(** Microseconds in one minute ([timedelta(minutes=1)]). *)
Definition MINUTE : Z := 60000000.

(** ** monitor_process.py *)

Module Monitor.

Definition CHECK_INTERVAL : Z := 5.
Definition COMMAND_CHECK_INTERVAL : Z := 1.

(** *** Status publisher *)

Record StatusData := {
  timestamp : Z;
  status : string;
  sd_process_running : bool;
  time_remaining : option string
}.

(** [update_status]: the status directory maps file names to the JSON
    object last written under that name; [open(status_file, "w")]
    creates the file or truncates an existing one.  [t_stamp] and
    [t_name] are the two readings of [time.time()], in microseconds;
    [int(...)] truncates the second reading to whole seconds. *)
Definition status_file (t_name : Z) : string :=
  "status_" +:+ pretty (t_name `quot` 1000000) +:+ ".json".

Definition update_status (t_stamp t_name : Z)
    (status : string) (process_running : bool) (time_remaining : option string)
    (dir : gmap string StatusData) : gmap string StatusData :=
  let status_data :=
    {| timestamp := t_stamp; status := status;
       sd_process_running := process_running;
       time_remaining := time_remaining |} in
  <[status_file t_name := status_data]> dir.

(** *** Liveness probe *)

(** The inner loop over the watch list for one process name: the first
    entry which, stripped and lower-cased, occurs in the lower-cased
    process name. *)
Fixpoint first_match (process_list : list string) (name : string) : option string :=
  match process_list with
  | [] => None
  | process_name :: rest =>
      let process_name := PyStr.strip process_name in
      if PyStr.contains (PyStr.lower process_name) (PyStr.lower name)
      then Some process_name
      else first_match rest name
  end.

(** The loop over the process table.  The result carries the entry and
    pid of the log line written before [return True] ([None] for
    [return False]) and the number of processes taken from the
    iterator. *)
Fixpoint scan (process_list : list string) (procs : list Proc)
  : option (string * Z) * nat :=
  match procs with
  | [] => (None, 0%nat)
  | Failing _ :: rest =>
      let '(r, n) := scan process_list rest in (r, S n)
  | Named pid name :: rest =>
      match first_match process_list name with
      | Some process_name => (Some (process_name, pid), 1%nat)
      | None => let '(r, n) := scan process_list rest in (r, S n)
      end
  end.

Definition is_process_running (process_names : string) (procs : list Proc) : bool :=
  match fst (scan (PyStr.split "," process_names) procs) with
  | Some _ => true
  | None => false
  end.

(** *** Control-plane client *)

Definition id_is (instance_id : Z) (i : Instance) : bool :=
  match inst_id i with
  | Some n => Z.eqb n instance_id
  | None => false
  end.

Definition label_is (identifier : string) (i : Instance) : bool :=
  match inst_label i with
  | LabelStr l => String.eqb l identifier
  | _ => false
  end.

(** [get_instances(api_key, identifier)]; every exception is caught and
    gives the empty list. *)
Definition get_instances (reply : ApiReply) (identifier : string) : list Instance :=
  match reply with
  | ApiInstances instances =>
      if PyStr.truthy identifier then
        match PyStr.int identifier with
        | Some instance_id => List.filter (id_is instance_id) instances
        | None => List.filter (label_is identifier) instances
        end
      else instances
  | ApiNoInstancesKey => []
  | ApiError => []
  end.

(** *** Command channel *)

Inductive Command := Stop | DeleteNow | Pause | Resume.

Definition pattern (c : Command) : string :=
  match c with
  | Stop => "stop_*.json"
  | DeleteNow => "delete_now_*.json"
  | Pause => "pause_*.json"
  | Resume => "resume_*.json"
  end.

(** [glob.glob('commands/<pattern>')] over the entries of the command
    directory, in directory order; names are compared as on a
    case-sensitive file system. *)
Definition glob (pat : string) (dir : list string) : list string :=
  List.filter (PyStr.fnmatch pat) dir.

Definition unlink (file : string) (dir : list string) : list string :=
  List.filter (fun f => negb (String.eqb f file)) dir.

(** [for file in files: os.remove(file)]: [removable] tells for which
    entries [os.remove] succeeds.  The first failure raises, so the
    remaining files are not visited; the boolean tells whether the loop
    ran to its end. *)
Fixpoint remove_files (removable : string -> bool) (files dir : list string)
  : bool * list string :=
  match files with
  | [] => (true, dir)
  | file :: rest =>
      if removable file
      then remove_files removable rest (unlink file dir)
      else (false, dir)
  end.

(** One of the four blocks of [check_for_commands]: nothing matched
    (the [if] is skipped), every matching file was removed (the block
    returns its command), or a removal raised (the error is logged and
    control falls out of the block). *)
Inductive Drained := NoFiles | Removed | RemoveFailed.

Definition drain (removable : string -> bool) (c : Command) (dir : list string)
  : Drained * list string :=
  match glob (pattern c) dir with
  | [] => (NoFiles, dir)
  | files =>
      match remove_files removable files dir with
      | (true, dir') => (Removed, dir')
      | (false, dir') => (RemoveFailed, dir')
      end
  end.

(** The error line a block logs, recorded as the kind it names. *)
Definition removal_error (d : Drained) (c : Command) : list Command :=
  match d with
  | RemoveFailed => [c]
  | _ => []
  end.

(** [check_for_commands]: the command returned, the directory left
    behind, and the removal errors logged on the way. *)
Definition check_for_commands (removable : string -> bool) (dir : list string)
  : option Command * list string * list Command :=
  match drain removable Stop dir with
  | (Removed, dir) => (Some Stop, dir, [])
  | (d1, dir) =>
  let errors := removal_error d1 Stop in
  match drain removable DeleteNow dir with
  | (Removed, dir) => (Some DeleteNow, dir, errors)
  | (d2, dir) =>
  let errors := (errors ++ removal_error d2 DeleteNow)%list in
  match drain removable Pause dir with
  | (Removed, dir) => (Some Pause, dir, errors)
  | (d3, dir) =>
  let errors := (errors ++ removal_error d3 Pause)%list in
  match drain removable Resume dir with
  | (Removed, dir) => (Some Resume, dir, errors)
  | (d4, dir) => (None, dir, (errors ++ removal_error d4 Resume)%list)
  end end end end.

(** *** Main loop *)

(** The command-line arguments the loop uses.  [timeout] is the value of
    [timedelta(minutes=timeout_minutes)], in microseconds. *)
Record Config := {
  processes_to_monitor : string;
  timeout : Z;
  instance_identifier : string
}.

(** The loop variables of [main]. *)
Record LoopState := {
  process_running : bool;
  last_seen_running : Z;
  paused : bool
}.

(** What one iteration of the loop reads from outside. *)
Record TickInput := {
  (** entries of [commands/] when the iteration starts *)
  cmd_dir : list string;
  (** the entries on which [os.remove] succeeds *)
  removable : string -> bool;
  (** the process table the probe iterates over *)
  procs : list Proc;
  (** [datetime.now()] read when the probe result changed *)
  now_edge : Z;
  (** [datetime.now()] read to compute [elapsed] *)
  now_check : Z;
  (** [datetime.now()] read when the timer is set again after a
      timeout-triggered attempt *)
  now_reset : Z;
  (** the listing requested by the [delete_now] branch *)
  reply_delete_now : ApiReply;
  (** the listing requested by the timeout branch *)
  reply_timeout : ApiReply;
  (** result of [delete_instance] for the k-th listed instance, in the
      [delete_now] branch and in the timeout branch *)
  delete_now_ok : nat -> Z -> bool;
  delete_timeout_ok : nat -> Z -> bool
}.

(** The lines [main], the probe and the command channel write to the
    log. *)
Inductive LogLine :=
| RemoveError (c : Command)
| ReceivedStop
| ReceivedPause
| ReceivedResume
| ReceivedDeleteNow
| NothingToDelete
| ProcessFound (process_name : string) (pid : Z)
| ProcessStarted
| ProcessStopped
| TimeoutReached
| DeletedExiting
| FailedRetryLater
| NoneFoundRetryInAMinute.

(** The effects of one iteration, in program order. *)
Inductive Event :=
| Log (l : LogLine)
| Publish (status : string) (process_running : bool) (time_remaining : option string)
| ListInstances
| DeleteInstance (instance_id : Z) (ok : bool).

(** How an iteration ends: [time.sleep] and another iteration,
    [sys.exit(code)], or [break]. *)
Inductive Outcome :=
| Sleep (seconds : Z)
| Exit (code : Z)
| Break.

Record TickResult := {
  state : LoopState;
  outcome : Outcome;
  events : list Event;
  cmd_dir_after : list string
}.

(** [for instance in instances: ... delete_instance(instance_id, api_key)]
    with the flag [deletion_successful] of the timeout branch. *)
Fixpoint delete_each (delete_ok : nat -> Z -> bool) (k : nat) (instances : list Instance)
  : bool * list Event :=
  match instances with
  | [] => (false, [])
  | instance :: rest =>
      let '(deletion_successful, evs) := delete_each delete_ok (S k) rest in
      match truthy_id (inst_id instance) with
      | Some instance_id =>
          let ok := delete_ok k instance_id in
          ((ok || deletion_successful)%bool, DeleteInstance instance_id ok :: evs)
      | None => (deletion_successful, evs)
      end
  end.

(** The branch taken for a command. *)
Definition on_command (cfg : Config) (inp : TickInput) (st : LoopState) (command : Command)
  : LoopState * list Event :=
  match command with
  | Stop =>
      (st, [Log ReceivedStop;
            Publish "Monitoring Stopped" (process_running st) None])
  | Pause =>
      ({| process_running := process_running st;
          last_seen_running := last_seen_running st;
          paused := true |},
       [Log ReceivedPause;
        Publish "Monitoring Paused" (process_running st) None])
  | Resume =>
      ({| process_running := process_running st;
          last_seen_running := last_seen_running st;
          paused := false |},
       [Log ReceivedResume;
        Publish "Monitoring Resumed" (process_running st) None])
  | DeleteNow =>
      (st, Log ReceivedDeleteNow :: ListInstances ::
           match get_instances (reply_delete_now inp) (instance_identifier cfg) with
           | [] => [Log NothingToDelete]
           | instances => snd (delete_each (delete_now_ok inp) 0 instances)
           end)
  end.

(** The remaining-time string of the status: [int(remaining.total_seconds())]
    truncates towards zero, the two [divmod] round down. *)
Definition format_remaining (remaining : Z) : string :=
  let total := remaining `quot` 1000000 in
  let minutes := total `div` 60 in
  let seconds := total `mod` 60 in
  let hours := minutes `div` 60 in
  let minutes := minutes `mod` 60 in
  if 0 <? hours
  then pretty hours +:+ "h " +:+ pretty minutes +:+ "m " +:+ pretty seconds +:+ "s"
  else pretty minutes +:+ "m " +:+ pretty seconds +:+ "s".

Definition set_last_seen_running (t : Z) (st : LoopState) : LoopState :=
  {| process_running := process_running st;
     last_seen_running := t;
     paused := paused st |}.

(** The probe and the edge detection: [current_process_running] is
    compared with the recorded flag, and on a change in either direction
    the flag and [last_seen_running] are updated. *)
Definition probe_edge (cfg : Config) (inp : TickInput) (st : LoopState)
  : LoopState * list Event :=
  let found := fst (scan (PyStr.split "," (processes_to_monitor cfg)) (procs inp)) in
  let probe_log :=
    match found with
    | Some (process_name, pid) => [Log (ProcessFound process_name pid)]
    | None => []
    end in
  let current_process_running := is_process_running (processes_to_monitor cfg) (procs inp) in
  if Bool.eqb current_process_running (process_running st) then (st, probe_log)
  else if current_process_running
  then ({| process_running := true;
           last_seen_running := now_edge inp;
           paused := paused st |},
        (probe_log ++ [Log ProcessStarted; Publish "Process Running" true None])%list)
  else ({| process_running := false;
           last_seen_running := now_edge inp;
           paused := paused st |},
        (probe_log ++ [Log ProcessStopped; Publish "Process Not Running" false None])%list).

(** The part of the iteration after [if paused: ... continue]: probe,
    edge detection, countdown and timeout-triggered deletion. *)
Definition monitor (cfg : Config) (inp : TickInput) (st : LoopState)
  : LoopState * Outcome * list Event :=
  let '(st, evs) := probe_edge cfg inp st in
  if process_running st
  then (st, Sleep CHECK_INTERVAL,
        (evs ++ [Publish "Process Running" true (Some "N/A - Process Running")])%list)
  else
    let elapsed := now_check inp - last_seen_running st in
    let remaining := timeout cfg - elapsed in
    let time_remaining := format_remaining remaining in
    let countdown :=
      [Publish ("Process Not Running - " +:+ time_remaining +:+ " until deletion")
               false (Some time_remaining)] in
    if remaining <=? 0 then
      let evs := (evs ++ [Log TimeoutReached; ListInstances])%list in
      match get_instances (reply_timeout inp) (instance_identifier cfg) with
      | [] =>
          (set_last_seen_running (now_reset inp - timeout cfg + MINUTE) st,
           Sleep CHECK_INTERVAL,
           (evs ++ Log NoneFoundRetryInAMinute :: countdown)%list)
      | instances =>
          let '(deletion_successful, del_evs) :=
            delete_each (delete_timeout_ok inp) 0 instances in
          if deletion_successful
          then (st, Break,
                (evs ++ del_evs ++
                 [Log DeletedExiting;
                  Publish "Instances Deleted, Monitoring Stopped" false None])%list)
          else (set_last_seen_running (now_reset inp) st,
                Sleep CHECK_INTERVAL,
                (evs ++ del_evs ++ Log FailedRetryLater :: countdown)%list)
      end
    else (st, Sleep CHECK_INTERVAL, (evs ++ countdown)%list).

(** The head of the iteration: the command channel is polled and the
    branch of the command found, if any, is taken. *)
Definition command_step (cfg : Config) (inp : TickInput) (st : LoopState)
  : option Command * LoopState * list Event * list string :=
  let '(command, dir, errors) := check_for_commands (removable inp) (cmd_dir inp) in
  let error_evs := List.map (fun c => Log (RemoveError c)) errors in
  match command with
  | Some c =>
      let '(st, evs) := on_command cfg inp st c in
      (command, st, (error_evs ++ evs)%list, dir)
  | None => (None, st, error_evs, dir)
  end.

(** One iteration of [while True]. *)
Definition tick (cfg : Config) (inp : TickInput) (st : LoopState) : TickResult :=
  let '(command, st, command_evs, dir) := command_step cfg inp st in
  match command with
  | Some Stop =>
      {| state := st; outcome := Exit 0;
         events := command_evs; cmd_dir_after := dir |}
  | _ =>
      if paused st
      then {| state := st; outcome := Sleep COMMAND_CHECK_INTERVAL;
              events := command_evs; cmd_dir_after := dir |}
      else
        let '(st, out, monitor_evs) := monitor cfg inp st in
        {| state := st; outcome := out;
           events := (command_evs ++ monitor_evs)%list;
           cmd_dir_after := dir |}
  end.

(** The variables before the loop; [t0] is the [datetime.now()] of the
    initialisation. *)
Definition initial (t0 : Z) : LoopState :=
  {| process_running := false; last_seen_running := t0; paused := false |}.

(** The loop over a sequence of iterations' inputs: the results of the
    iterations executed, each with the state it started from.  The loop
    goes on only after a [Sleep]. *)
Fixpoint run (cfg : Config) (inputs : list TickInput) (st : LoopState)
  : list (LoopState * TickInput * TickResult) :=
  match inputs with
  | [] => []
  | inp :: rest =>
      let r := tick cfg inp st in
      (st, inp, r) ::
      match outcome r with
      | Sleep _ => run cfg rest (state r)
      | _ => []
      end
  end.

(** The exit status of the process once an iteration has ended the
    loop: [sys.exit(code)] gives [code]; after [break], [main] returns
    and the interpreter exits with 0. *)
Definition exit_status (o : Outcome) : option Z :=
  match o with
  | Sleep _ => None
  | Exit code => Some code
  | Break => Some 0
  end.

End Monitor.

(** ** vast_auto_shutoff.py *)

Module Standalone.

(** *** Liveness probe *)

(** [any(p.lower() == process_name for p in process_names)] *)
Definition name_listed (process_names : list string) (process_name : string) : bool :=
  existsb (fun p => String.eqb (PyStr.lower p) process_name) process_names.

(** The loop over the process table: the result and the number of
    processes taken from the iterator. *)
Fixpoint scan (process_names : list string) (procs : list Proc) : bool * nat :=
  match procs with
  | [] => (false, 0%nat)
  | Failing _ :: rest =>
      let '(r, n) := scan process_names rest in (r, S n)
  | Named _ name :: rest =>
      if name_listed process_names (PyStr.lower name)
      then (true, 1%nat)
      else let '(r, n) := scan process_names rest in (r, S n)
  end.

Definition is_process_running (process_names : list string) (procs : list Proc) : bool :=
  fst (scan process_names procs).

(** *** Control-plane client *)

(** [[i for i in instances if instance_label.lower() in i.get('label', '').lower()]]:
    [None] when the comprehension raises, which it does on an instance
    whose label is [null]. *)
Fixpoint filter_label (instance_label : string) (instances : list Instance)
  : option (list Instance) :=
  match instances with
  | [] => Some []
  | i :: rest =>
      match inst_label i with
      | LabelNull => None
      | label =>
          let l := match label with LabelStr l => l | _ => "" end in
          match filter_label instance_label rest with
          | None => None
          | Some kept =>
              if PyStr.contains (PyStr.lower instance_label) (PyStr.lower l)
              then Some (i :: kept) else Some kept
          end
      end
  end.

(** The REST part of [get_instances]; every exception gives [[]]. *)
Definition get_instances_rest (reply : ApiReply) (instance_label : string) : list Instance :=
  match reply with
  | ApiInstances instances =>
      if PyStr.truthy instance_label
      then match filter_label instance_label instances with
           | Some kept => kept
           | None => []
           end
      else instances
  | ApiNoInstancesKey => []
  | ApiError => []
  end.

(** [get_instances]: [sdk] is the result of [client.show_instances()]
    when the SDK is importable, its client could be built and the call
    returned; any failure on that path falls back to the REST request. *)
Definition get_instances (sdk : option (list Instance)) (reply : ApiReply)
    (instance_label : string) : list Instance :=
  match sdk with
  | Some instances =>
      if PyStr.truthy instance_label
      then match filter_label instance_label instances with
           | Some kept => kept
           | None => get_instances_rest reply instance_label
           end
      else instances
  | None => get_instances_rest reply instance_label
  end.

(** *** Main loop *)

Record Config := {
  process_names : list string;
  timeout_minutes : Z;
  check_interval : Z;
  instance_label : string
}.

Record LoopState := {
  last_active_time : Z;
  instances_terminated : bool
}.

Record TickInput := {
  procs : list Proc;
  (** [datetime.now()] stored in [last_active_time] *)
  now_active : Z;
  (** [datetime.now()] read to compute [inactive_duration] *)
  now_inactive : Z;
  sdk_reply : option (list Instance);
  rest_reply : ApiReply;
  (** result of [delete_instance] for the k-th listed instance *)
  delete_ok : nat -> Z -> bool
}.

Inductive Event :=
| ListInstances
| DeleteInstance (instance_id : Z) (ok : bool)
| Notify (instance_id : Z)
| SleepFor (seconds : Z).

(** [instance.get('id') or instance.get('instance_id')] followed by
    [if instance_id:] *)
Definition id_of (i : Instance) : option Z :=
  match truthy_id (inst_id i) with
  | Some n => Some n
  | None => truthy_id (inst_instance_id i)
  end.

Fixpoint delete_each (delete_ok : nat -> Z -> bool) (k : nat) (instances : list Instance)
  : list Event :=
  match instances with
  | [] => []
  | instance :: rest =>
      match id_of instance with
      | Some instance_id =>
          let success := delete_ok k instance_id in
          (DeleteInstance instance_id success ::
           (if success then [Notify instance_id] else []) ++
           delete_each delete_ok (S k) rest)%list
      | None => delete_each delete_ok (S k) rest
      end
  end.

(** The body of [while True] before the final [time.sleep].  The test
    [inactive_minutes >= timeout_minutes] is taken on the exact
    durations. *)
Definition step (cfg : Config) (inp : TickInput) (st : LoopState)
  : LoopState * list Event :=
  if is_process_running (process_names cfg) (procs inp)
  then ({| last_active_time := now_active inp; instances_terminated := false |}, [])
  else
    let inactive_duration := now_inactive inp - last_active_time st in
    if ((timeout_minutes cfg * MINUTE <=? inactive_duration)
        && negb (instances_terminated st))%bool
    then
      match get_instances (sdk_reply inp) (rest_reply inp) (instance_label cfg) with
      | [] => (st, [ListInstances])
      | instances =>
          ({| last_active_time := last_active_time st; instances_terminated := true |},
           ListInstances :: delete_each (delete_ok inp) 0 instances)
      end
    else (st, []).

(** One iteration of [while True]: the loop has no [break] and every
    iteration ends in [time.sleep(check_interval)]. *)
Definition tick (cfg : Config) (inp : TickInput) (st : LoopState)
  : LoopState * list Event :=
  let '(st, evs) := step cfg inp st in
  (st, (evs ++ [SleepFor (check_interval cfg)])%list).

(** The loop over a sequence of iterations' inputs: the state each
    iteration ends in and its effects. *)
Fixpoint run (cfg : Config) (inputs : list TickInput) (st : LoopState)
  : list (LoopState * list Event) :=
  match inputs with
  | [] => []
  | inp :: rest =>
      let r := tick cfg inp st in
      r :: run cfg rest (fst r)
  end.

End Standalone.

(** ** Notions used in the statements *)

(** The watch list of [monitor_process.py]: the comma-separated argument,
    split and stripped as the probe does. *)
Definition watch_list (process_names : string) : list string :=
  List.map PyStr.strip (PyStr.split "," process_names).

Definition equals_ignoring_case (a b : string) : Prop :=
  PyStr.lower a = PyStr.lower b.

Definition contains_ignoring_case (hay needle : string) : Prop :=
  exists pre post, PyStr.lower hay = pre +:+ PyStr.lower needle +:+ post.

(** A process of the table whose name can be read and is matched by the
    watch list, in each of the two modes. *)
Definition exact_hit (names : list string) (p : Proc) : Prop :=
  exists pid name entry,
    p = Named pid name /\ In entry names /\ equals_ignoring_case name entry.

Definition substring_hit (entries : list string) (p : Proc) : Prop :=
  exists pid name entry,
    p = Named pid name /\ In entry entries /\ contains_ignoring_case name entry.


(** The iteration invokes the timeout-triggered deletion procedure: it
    takes the branch that logs the timeout and then lists and deletes the
    instances. *)
Definition timeout_deletion (r : Monitor.TickResult) : Prop :=
  In (Monitor.Log Monitor.TimeoutReached) (Monitor.events r).

(** The iteration is not ended by a stop command and is not paused once
    its command has been handled, so it goes on to the probe. *)
Definition monitoring (cfg : Monitor.Config) (inp : Monitor.TickInput)
    (st : Monitor.LoopState) : bool :=
  let '(command, st, _, _) := Monitor.command_step cfg inp st in
  match command with
  | Some Monitor.Stop => false
  | _ => negb (Monitor.paused st)
  end.

(** The value of [last_seen_running] against which the iteration measures
    the elapsed time: the stored one, or the instant of the edge the
    iteration has just seen. *)
Definition last_active_at (cfg : Monitor.Config) (inp : Monitor.TickInput)
    (st : Monitor.LoopState) : Z :=
  Monitor.last_seen_running (fst (Monitor.probe_edge cfg inp st)).

(** The clock readings of an iteration are in program order and not
    earlier than [t]. *)
Definition clock_after (t : Z) (inp : Monitor.TickInput) : Prop :=
  t <= Monitor.now_edge inp
  /\ Monitor.now_edge inp <= Monitor.now_check inp
  /\ Monitor.now_check inp <= Monitor.now_reset inp.

(** The order in which [check_for_commands] looks for the kinds: a
    smaller rank is a higher priority. *)
Definition rank (c : Monitor.Command) : nat :=
  match c with
  | Monitor.Stop => 0
  | Monitor.DeleteNow => 1
  | Monitor.Pause => 2
  | Monitor.Resume => 3
  end.

(** At least one of the [delete_instance] calls made for a listing
    returns [True]: some listed instance has a usable identifier and its
    deletion succeeds. *)
Definition deletion_succeeds (delete_ok : nat -> Z -> bool) (instances : list Instance)
  : Prop :=
  exists k instance instance_id,
    nth_error instances k = Some instance
    /\ truthy_id (inst_id instance) = Some instance_id
    /\ delete_ok k instance_id = true.


(** Some listed instance has a usable identifier, as the stand-alone
    script reads it, and its deletion succeeds. *)
Definition standalone_deletion_succeeds (delete_ok : nat -> Z -> bool)
    (instances : list Instance) : Prop :=
  exists k instance instance_id,
    nth_error instances k = Some instance
    /\ Standalone.id_of instance = Some instance_id
    /\ delete_ok k instance_id = true.

(** ** Concrete situations used in the examples *)

Module Scenario.

(** A ten-minute grace period on the two default process names. *)
Definition cfg : Monitor.Config :=
  {| Monitor.processes_to_monitor := "skyrimvr.exe,skyrim.exe";
     Monitor.timeout := 10 * MINUTE;
     Monitor.instance_identifier := "XTTS" |}.

Definition xtts : Instance :=
  {| inst_id := Some 7; inst_instance_id := None; inst_label := LabelStr "XTTS" |}.

Definition other : Instance :=
  {| inst_id := Some 8; inst_instance_id := None; inst_label := LabelStr "other" |}.

(** A process table without the workload, with one unreadable process,
    and one with the workload. *)
Definition idle_table : list Proc :=
  [Named 4 "System"; Failing AccessDenied; Named 812 "explorer.exe"].

Definition busy_table : list Proc :=
  [Named 4 "System"; Failing AccessDenied; Named 4242 "SkyrimVR.exe"].

(** The input of an iteration that starts [seconds] after the loop
    started: the three clock readings follow each other by a
    microsecond, every file can be removed, both listings answer
    [listing] and every deletion has the outcome [ok]. *)
Definition input (dir : list string) (table : list Proc) (seconds : Z)
    (listing : ApiReply) (ok : bool) : Monitor.TickInput :=
  {| Monitor.cmd_dir := dir;
     Monitor.removable := fun _ => true;
     Monitor.procs := table;
     Monitor.now_edge := seconds * 1000000;
     Monitor.now_check := seconds * 1000000 + 1;
     Monitor.now_reset := seconds * 1000000 + 2;
     Monitor.reply_delete_now := listing;
     Monitor.reply_timeout := listing;
     Monitor.delete_now_ok := fun _ _ => ok;
     Monitor.delete_timeout_ok := fun _ _ => ok |}.

(** The stand-alone loop with a fifteen-minute timeout, and an iteration
    of it [minutes] after the last activity, the workload absent. *)
Definition standalone_cfg : Standalone.Config :=
  {| Standalone.process_names := ["skyrimvr.exe"; "skyrim.exe"];
     Standalone.timeout_minutes := 15;
     Standalone.check_interval := 60;
     Standalone.instance_label := "XTTS" |}.

Definition standalone_input (minutes : Z) (ok : bool) : Standalone.TickInput :=
  {| Standalone.procs := idle_table;
     Standalone.now_active := minutes * MINUTE;
     Standalone.now_inactive := minutes * MINUTE;
     Standalone.sdk_reply := None;
     Standalone.rest_reply := ApiInstances [xtts; other];
     Standalone.delete_ok := fun _ _ => ok |}.

End Scenario.

(** ** Further notions: the command channel as a whole *)

(** The string [check_for_commands] returns for a kind. *)
Definition command_name (c : Monitor.Command) : string :=
  match c with
  | Monitor.Stop => "stop"
  | Monitor.DeleteNow => "delete_now"
  | Monitor.Pause => "pause"
  | Monitor.Resume => "resume"
  end.

(** The kinds in the order of the four blocks of [check_for_commands]. *)
Definition kinds : list Monitor.Command :=
  [Monitor.Stop; Monitor.DeleteNow; Monitor.Pause; Monitor.Resume].

(** A kind can be delivered from a directory: it has a matching file and
    [os.remove] succeeds on every matching file. *)
Definition deliverable (removable : string -> bool) (dir : list string)
    (c : Monitor.Command) : bool :=
  match Monitor.glob (Monitor.pattern c) dir with
  | [] => false
  | files => forallb removable files
  end.

(** A file name no command pattern matches. *)
Definition unrecognized (f : string) : Prop :=
  forall c, PyStr.fnmatch (Monitor.pattern c) f = false.

(** ** vast_auto_shutoff_gui.py: the writer of the command files *)

Module Gui.

(** The file name [sendCommand] writes for a command, inside
    [commands/]; [timestamp] is [int(time.time())].  A command other than
    the four known ones gets the fallback name. *)
Definition command_file (command : string) (timestamp : Z) : string :=
  if String.eqb command "stop" then "stop_" +:+ pretty timestamp +:+ ".json"
  else if String.eqb command "pause" then "pause_" +:+ pretty timestamp +:+ ".json"
  else if String.eqb command "resume" then "resume_" +:+ pretty timestamp +:+ ".json"
  else if String.eqb command "delete_now"
       then "delete_now_" +:+ pretty timestamp +:+ ".json"
  else "command_" +:+ pretty timestamp +:+ ".json".

End Gui.


(** ** Further notions: the loops *)

(** The identifiers [delete_instance] is called with, in order, among
    the effects of an iteration of [monitor_process.py]. *)
Definition deleted_ids (evs : list Monitor.Event) : list Z :=
  flat_map (fun e => match e with
                     | Monitor.DeleteInstance instance_id _ => [instance_id]
                     | _ => []
                     end) evs.

(** The identifiers of a listing that pass [if instance_id:], in listing
    order. *)
Definition usable_ids (instances : list Instance) : list Z :=
  flat_map (fun i => match truthy_id (inst_id i) with
                     | Some instance_id => [instance_id]
                     | None => []
                     end) instances.

(** The iteration reaches the timeout branch: it goes on to the probe,
    the probe reports not-running, and the grace period has elapsed. *)
Definition timeout_due (cfg : Monitor.Config) (inp : Monitor.TickInput)
    (st : Monitor.LoopState) : bool :=
  (monitoring cfg inp st
   && negb (Monitor.is_process_running (Monitor.processes_to_monitor cfg)
                                       (Monitor.procs inp))
   && (Monitor.timeout cfg <=? Monitor.now_check inp - last_active_at cfg inp st))%bool.

(** The command the iteration receives. *)
Definition received (inp : Monitor.TickInput) : option Monitor.Command :=
  fst (fst (Monitor.check_for_commands (Monitor.removable inp) (Monitor.cmd_dir inp))).

(** Two inputs that differ at most in what the monitoring part of an
    iteration reads: process table, clock and the timeout branch's
    listing and deletions. *)
Definition same_commands (inp inp' : Monitor.TickInput) : Prop :=
  Monitor.cmd_dir inp = Monitor.cmd_dir inp'
  /\ Monitor.removable inp = Monitor.removable inp'
  /\ Monitor.reply_delete_now inp = Monitor.reply_delete_now inp'
  /\ Monitor.delete_now_ok inp = Monitor.delete_now_ok inp'.


(** The identifiers the stand-alone loop calls [delete_instance] with. *)
Definition standalone_deleted_ids (evs : list Standalone.Event) : list Z :=
  flat_map (fun e => match e with
                     | Standalone.DeleteInstance instance_id _ => [instance_id]
                     | _ => []
                     end) evs.

Definition standalone_usable_ids (instances : list Instance) : list Z :=
  flat_map (fun i => match Standalone.id_of i with
                     | Some instance_id => [instance_id]
                     | None => []
                     end) instances.

(** The stand-alone iteration attempts the deletion: the probe reports
    not-running, the timeout has been reached and no attempt has been made
    since the workload was last seen. *)
Definition standalone_due (cfg : Standalone.Config) (inp : Standalone.TickInput)
    (st : Standalone.LoopState) : bool :=
  (negb (Standalone.is_process_running (Standalone.process_names cfg)
                                       (Standalone.procs inp))
   && (Standalone.timeout_minutes cfg * MINUTE
       <=? Standalone.now_inactive inp - Standalone.last_active_time st)
   && negb (Standalone.instances_terminated st))%bool.


(** Every character of a string passes a test. *)
Fixpoint all_chars (p : ascii -> bool) (s : string) : bool :=
  match s with
  | EmptyString => true
  | String c s' => (p c && all_chars p s')%bool
  end.

(** ** Facts about the string primitives *)

Lemma append_cons (c : ascii) (a b : string) :
  String c a +:+ b = String c (a +:+ b).
Proof. reflexivity. Qed.

Lemma append_nil (b : string) : "" +:+ b = b.
Proof. reflexivity. Qed.

Lemma prefix_iff_append (a b : string) :
  String.prefix a b = true <-> exists post, b = a +:+ post.
Proof.
  revert b. induction a as [|c a IH]; intros b.
  - destruct b; simpl; split; eauto.
  - destruct b as [|d b]; simpl.
    + split; [discriminate | intros [post H]; discriminate].
    + setoid_rewrite append_cons.
      destruct (ascii_dec c d) as [->|Hne].
      * rewrite IH. split; intros [post H]; exists post; congruence.
      * split; [discriminate | intros [post H]; congruence].
Qed.

Lemma contains_nil (needle : string) :
  PyStr.contains needle "" = String.prefix needle "".
Proof. unfold PyStr.contains. apply orb_false_r. Qed.

Lemma contains_cons (needle : string) (c : ascii) (hay : string) :
  PyStr.contains needle (String c hay)
  = (String.prefix needle (String c hay) || PyStr.contains needle hay)%bool.
Proof. reflexivity. Qed.

Lemma contains_iff_append (needle hay : string) :
  PyStr.contains needle hay = true <->
  exists pre post, hay = pre +:+ needle +:+ post.
Proof.
  induction hay as [|c hay IH].
  - rewrite contains_nil, prefix_iff_append. split.
    + intros [post H]. exists "", post. exact H.
    + intros [pre [post H]]. destruct pre; [eauto | discriminate].
  - rewrite contains_cons, orb_true_iff, prefix_iff_append, IH. split.
    + intros [[post H] | [pre [post H]]].
      * exists "", post. exact H.
      * exists (String c pre), post. rewrite append_cons. congruence.
    + intros [pre [post H]]. destruct pre as [|d pre].
      * left. eauto.
      * right. exists pre, post. rewrite append_cons in H. congruence.
Qed.

Lemma contains_empty (hay : string) : PyStr.contains "" hay = true.
Proof. destruct hay; reflexivity. Qed.

(** ** The liveness probes *)

Lemma first_match_Some (process_list : list string) (name entry : string) :
  Monitor.first_match process_list name = Some entry ->
  In entry (List.map PyStr.strip process_list) /\ contains_ignoring_case name entry.
Proof.
  induction process_list as [|raw rest IH]; simpl; [discriminate|].
  destruct (PyStr.contains _ _) eqn:Hc.
  - intros [= <-]. split; [now left|].
    apply contains_iff_append in Hc. exact Hc.
  - intros H. destruct (IH H) as [Hin Hci]. split; [now right | exact Hci].
Qed.

Lemma first_match_None (process_list : list string) (name : string) :
  Monitor.first_match process_list name = None ->
  forall entry, In entry (List.map PyStr.strip process_list) ->
                ~ contains_ignoring_case name entry.
Proof.
  induction process_list as [|raw rest IH]; simpl; [tauto|].
  destruct (PyStr.contains _ _) eqn:Hc; [discriminate|].
  intros H entry [<- | Hin].
  - intros Hci. apply contains_iff_append in Hci. congruence.
  - now apply IH.
Qed.

Lemma first_match_hit (process_list : list string) (pid : Z) (name : string) :
  (exists entry, Monitor.first_match process_list name = Some entry) <->
  substring_hit (List.map PyStr.strip process_list) (Named pid name).
Proof.
  split.
  - intros [entry H]. apply first_match_Some in H as [Hin Hci].
    exists pid, name, entry. auto.
  - intros (pid' & name' & entry & [= <- <-] & Hin & Hci).
    destruct (Monitor.first_match process_list name) eqn:Hfm; [eauto|].
    exfalso. exact (first_match_None _ _ Hfm _ Hin Hci).
Qed.

Lemma failing_no_substring_hit (entries : list string) (e : PsutilError) :
  ~ substring_hit entries (Failing e).
Proof. intros (pid & name & entry & H & _). discriminate. Qed.

Lemma monitor_scan_spec (process_list : list string) (procs : list Proc) :
  match Monitor.scan process_list procs with
  | (Some (entry, pid), n) =>
      exists before name after,
        procs = (before ++ Named pid name :: after)%list
        /\ Monitor.first_match process_list name = Some entry
        /\ (forall q, In q before -> ~ substring_hit (List.map PyStr.strip process_list) q)
        /\ n = S (length before)
  | (None, n) =>
      (forall q, In q procs -> ~ substring_hit (List.map PyStr.strip process_list) q)
      /\ n = length procs
  end.
Proof.
  induction procs as [|p rest IH]; simpl.
  - split; [intros q [] | reflexivity].
  - destruct p as [pid name | e].
    + destruct (Monitor.first_match process_list name) as [entry|] eqn:Hfm.
      * exists [], name, rest. repeat split; auto.
      * destruct (Monitor.scan process_list rest) as [[[entry' pid']|] n].
        -- destruct IH as (before & name' & after & -> & Hm & Hb & ->).
           exists (Named pid name :: before), name', after.
           repeat split; auto.
           intros q [<- | Hq]; [|now apply Hb].
           rewrite <- first_match_hit. intros [entry Hq]. congruence.
        -- destruct IH as [Hall ->]. split; [|reflexivity].
           intros q [<- | Hq]; [|now apply Hall].
           rewrite <- first_match_hit. intros [entry Hq]. congruence.
    + destruct (Monitor.scan process_list rest) as [[[entry' pid']|] n].
      * destruct IH as (before & name' & after & -> & Hm & Hb & ->).
        exists (Failing e :: before), name', after.
        repeat split; auto.
        intros q [<- | Hq]; [apply failing_no_substring_hit | now apply Hb].
      * destruct IH as [Hall ->]. split; [|reflexivity].
        intros q [<- | Hq]; [apply failing_no_substring_hit | now apply Hall].
Qed.

Lemma name_listed_hit (names : list string) (pid : Z) (name : string) :
  Standalone.name_listed names (PyStr.lower name) = true <->
  exact_hit names (Named pid name).
Proof.
  unfold Standalone.name_listed. rewrite existsb_exists. split.
  - intros (entry & Hin & Heq). apply String.eqb_eq in Heq.
    exists pid, name, entry. unfold equals_ignoring_case. auto.
  - intros (pid' & name' & entry & [= <- <-] & Hin & Heq).
    exists entry. split; [exact Hin|]. apply String.eqb_eq. symmetry. exact Heq.
Qed.

Lemma failing_no_exact_hit (names : list string) (e : PsutilError) :
  ~ exact_hit names (Failing e).
Proof. intros (pid & name & entry & H & _). discriminate. Qed.

Lemma standalone_scan_spec (names : list string) (procs : list Proc) :
  match Standalone.scan names procs with
  | (true, n) =>
      exists before p after,
        procs = (before ++ p :: after)%list
        /\ exact_hit names p
        /\ (forall q, In q before -> ~ exact_hit names q)
        /\ n = S (length before)
  | (false, n) =>
      (forall q, In q procs -> ~ exact_hit names q) /\ n = length procs
  end.
Proof.
  induction procs as [|p rest IH]; simpl.
  - split; [intros q [] | reflexivity].
  - destruct p as [pid name | e].
    + destruct (Standalone.name_listed names (PyStr.lower name)) eqn:Hl.
      * exists [], (Named pid name), rest. repeat split; auto.
        now apply name_listed_hit.
      * assert (Hno : ~ exact_hit names (Named pid name)).
        { rewrite <- name_listed_hit. congruence. }
        destruct (Standalone.scan names rest) as [[|] n].
        -- destruct IH as (before & p & after & -> & Hm & Hb & ->).
           exists (Named pid name :: before), p, after.
           repeat split; auto.
           intros q [<- | Hq]; [exact Hno | now apply Hb].
        -- destruct IH as [Hall ->]. split; [|reflexivity].
           intros q [<- | Hq]; [exact Hno | now apply Hall].
    + destruct (Standalone.scan names rest) as [[|] n].
      * destruct IH as (before & p & after & -> & Hm & Hb & ->).
        exists (Failing e :: before), p, after.
        repeat split; auto.
        intros q [<- | Hq]; [apply failing_no_exact_hit | now apply Hb].
      * destruct IH as [Hall ->]. split; [|reflexivity].
        intros q [<- | Hq]; [apply failing_no_exact_hit | now apply Hall].
Qed.



Lemma monitor_probe_iff (process_names : string) (procs : list Proc) :
  Monitor.is_process_running process_names procs = true <->
  exists p, In p procs /\ substring_hit (watch_list process_names) p.
Proof.
  unfold Monitor.is_process_running, watch_list.
  pose proof (monitor_scan_spec (PyStr.split "," process_names) procs) as H.
  destruct (Monitor.scan _ procs) as [[[entry pid]|] n]; simpl.
  - destruct H as (before & name & after & -> & Hm & _).
    split; [intros _ | reflexivity].
    exists (Named pid name). split; [apply in_elt|].
    apply first_match_hit. eauto.
  - destruct H as [Hall _]. split; [discriminate|].
    intros (p & Hin & Hp). exfalso. exact (Hall p Hin Hp).
Qed.

Lemma standalone_probe_iff (names : list string) (procs : list Proc) :
  Standalone.is_process_running names procs = true <->
  exists p, In p procs /\ exact_hit names p.
Proof.
  unfold Standalone.is_process_running.
  pose proof (standalone_scan_spec names procs) as H.
  destruct (Standalone.scan names procs) as [[|] n]; simpl.
  - destruct H as (before & p & after & -> & Hm & _).
    split; [intros _ | reflexivity].
    exists p. split; [apply in_elt | exact Hm].
  - destruct H as [Hall _]. split; [discriminate|].
    intros (p & Hin & Hp). exfalso. exact (Hall p Hin Hp).
Qed.


(** ** The loop of monitor_process.py *)

Section MonitorLoop.

Import Monitor.

Lemma delete_each_events (delete_ok : nat -> Z -> bool) (instances : list Instance) (k : nat) (e : Event) :
  In e (snd (delete_each delete_ok k instances)) ->
  exists instance_id ok, e = DeleteInstance instance_id ok.
Proof.
  revert k. induction instances as [|i rest IH]; intros k; simpl; [tauto|].
  specialize (IH (S k)).
  destruct (delete_each delete_ok (S k) rest) as [b evs].
  destruct (truthy_id (inst_id i)); simpl; [|exact IH].
  intros [<- | H]; eauto.
Qed.

Lemma on_command_spec (cfg : Config) (inp : TickInput) (st : LoopState) (c : Command) :
  process_running (fst (on_command cfg inp st c)) = process_running st
  /\ last_seen_running (fst (on_command cfg inp st c)) = last_seen_running st
  /\ ~ In (Log TimeoutReached) (snd (on_command cfg inp st c)).
Proof.
  destruct c; unfold on_command; cbn [fst snd process_running last_seen_running];
    repeat split; try (intros H; simpl in H; intuition discriminate).
  intros [H | [H | H]]; try discriminate.
  destruct (get_instances _ _) as [|i l]; cbv iota in H.
  - simpl in H. intuition discriminate.
  - apply delete_each_events in H as (? & ? & H). discriminate.
Qed.

Lemma command_step_spec (cfg : Config) (inp : TickInput) (st : LoopState) :
  let '(command, st1, evs, dir) := command_step cfg inp st in
  process_running st1 = process_running st
  /\ last_seen_running st1 = last_seen_running st
  /\ ~ In (Log TimeoutReached) evs.
Proof.
  unfold command_step.
  destruct (check_for_commands _ _) as [[command dir] errors].
  assert (Herr : ~ In (Log TimeoutReached) (List.map (fun c => Log (RemoveError c)) errors)).
  { rewrite in_map_iff. intros (c & H & _). discriminate. }
  destruct command as [c|]; [|auto].
  pose proof (on_command_spec cfg inp st c) as (H1 & H2 & H3).
  destruct (on_command cfg inp st c) as [st1 evs]. simpl in *.
  repeat split; auto. rewrite in_app_iff. tauto.
Qed.

Lemma probe_log_no_timeout (process_names : string) (procs : list Proc) :
  ~ In (Log TimeoutReached)
       match fst (scan (PyStr.split "," process_names) procs) with
       | Some (process_name, pid) => [Log (ProcessFound process_name pid)]
       | None => []
       end.
Proof.
  destruct (fst _) as [[process_name pid]|]; simpl; intuition discriminate.
Qed.

Lemma probe_edge_spec (cfg : Config) (inp : TickInput) (st : LoopState) :
  let current := is_process_running (processes_to_monitor cfg) (procs inp) in
  let st' := fst (probe_edge cfg inp st) in
  process_running st' = current
  /\ paused st' = paused st
  /\ last_seen_running st'
     = (if Bool.eqb current (process_running st)
        then last_seen_running st else now_edge inp)
  /\ ~ In (Log TimeoutReached) (snd (probe_edge cfg inp st)).
Proof.
  unfold probe_edge.
  pose proof (probe_log_no_timeout (processes_to_monitor cfg) (procs inp)) as Hlog.
  destruct (Bool.eqb _ _) eqn:He; cbn [fst snd].
  - apply Bool.eqb_prop in He. repeat split; auto.
  - destruct (is_process_running _ _); cbn [fst snd process_running paused last_seen_running];
      repeat split; auto; rewrite in_app_iff; simpl; intuition discriminate.
Qed.

Lemma last_active_at_cases (cfg : Config) (inp : TickInput) (st : LoopState) :
  last_active_at cfg inp st = last_seen_running st
  \/ last_active_at cfg inp st = now_edge inp.
Proof.
  unfold last_active_at.
  destruct (probe_edge_spec cfg inp st) as (_ & _ & -> & _).
  destruct (Bool.eqb _ _); auto.
Qed.

(** The three ways the monitoring part of an iteration can go. *)
Lemma monitor_cases (cfg : Config) (inp : TickInput) (st : LoopState) :
  let st' := fst (probe_edge cfg inp st) in
  let r := monitor cfg inp st in
  let evs := snd r in
  (process_running st' = true
   /\ fst r = (st', Sleep CHECK_INTERVAL)
   /\ ~ In (Log TimeoutReached) evs)
  \/ (process_running st' = false
      /\ now_check inp - last_seen_running st' < timeout cfg
      /\ fst r = (st', Sleep CHECK_INTERVAL)
      /\ ~ In (Log TimeoutReached) evs)
  \/ (process_running st' = false
      /\ timeout cfg <= now_check inp - last_seen_running st'
      /\ In (Log TimeoutReached) evs
      /\ In ListInstances evs
      /\ match get_instances (reply_timeout inp) (instance_identifier cfg) with
         | [] =>
             fst r = (set_last_seen_running (now_reset inp - timeout cfg + MINUTE) st',
                      Sleep CHECK_INTERVAL)
         | instances =>
             if fst (delete_each (delete_timeout_ok inp) 0 instances)
             then fst r = (st', Break)
                  /\ exists before,
                      evs = (before ++
                             [Publish "Instances Deleted, Monitoring Stopped" false None])%list
             else fst r = (set_last_seen_running (now_reset inp) st',
                           Sleep CHECK_INTERVAL)
         end).
Proof.
  intros st' r evs. subst r evs. unfold monitor.
  destruct (probe_edge_spec cfg inp st) as (_ & _ & _ & Hno). fold st' in Hno.
  destruct (probe_edge cfg inp st) as [st1 evs1]. cbn [fst snd] in *. subst st'.
  destruct (process_running st1) eqn:Hpr.
  - left. cbn [fst snd]. repeat split; auto.
    rewrite in_app_iff. simpl. intuition discriminate.
  - right. destruct (Z.leb_spec (timeout cfg - (now_check inp - last_seen_running st1)) 0) as [Hle|Hgt].
    + right. split; [reflexivity|]. split; [lia|].
      destruct (get_instances _ _) as [|i l].
      * cbn [fst snd]. repeat split; rewrite !in_app_iff; simpl; auto.
      * destruct (delete_each _ _ _) as [ok del_evs]. cbn [fst].
        destruct ok; cbn [fst snd]; repeat split;
          try (rewrite !in_app_iff; simpl; now auto 7).
        exists ((evs1 ++ [Log TimeoutReached; ListInstances]) ++ del_evs
                ++ [Log DeletedExiting])%list.
        now rewrite <- !app_assoc.
    + left. cbn [fst snd]. repeat split; auto; [lia|].
      rewrite in_app_iff. simpl. intuition discriminate.
Qed.

(** An iteration that goes on to the probe is its command part followed
    by its monitoring part. *)
Lemma tick_monitoring (cfg : Config) (inp : TickInput) (st : LoopState) :
  monitoring cfg inp st = true ->
  exists command st1 cevs dir,
    command_step cfg inp st = (command, st1, cevs, dir)
    /\ command <> Some Stop
    /\ paused st1 = false
    /\ process_running st1 = process_running st
    /\ last_seen_running st1 = last_seen_running st
    /\ ~ In (Log TimeoutReached) cevs
    /\ tick cfg inp st
       = {| state := fst (fst (monitor cfg inp st1));
            outcome := snd (fst (monitor cfg inp st1));
            events := (cevs ++ snd (monitor cfg inp st1))%list;
            cmd_dir_after := dir |}.
Proof.
  unfold monitoring, tick. pose proof (command_step_spec cfg inp st) as Hc.
  destruct (command_step cfg inp st) as [[[command st1] cevs] dir].
  destruct Hc as (H1 & H2 & H3). intros Hm.
  exists command, st1, cevs, dir.
  assert (Hstop : command <> Some Stop) by (intros ->; discriminate).
  assert (Hp : paused st1 = false).
  { destruct command as [[]|]; try discriminate;
      now apply negb_true_iff in Hm. }
  repeat split; auto.
  rewrite Hp. destruct (monitor cfg inp st1) as [[st2 out] mevs].
  destruct command as [[]|]; try reflexivity. congruence.
Qed.

(** An iteration that does not go on to the probe is its command part
    alone; it ends the loop on a stop command and sleeps otherwise. *)
Lemma tick_not_monitoring (cfg : Config) (inp : TickInput) (st : LoopState) :
  monitoring cfg inp st = false ->
  exists command st1 cevs dir,
    command_step cfg inp st = (command, st1, cevs, dir)
    /\ ~ In (Log TimeoutReached) cevs
    /\ tick cfg inp st
       = {| state := st1;
            outcome := match command with
                       | Some Stop => Exit 0
                       | _ => Sleep COMMAND_CHECK_INTERVAL
                       end;
            events := cevs;
            cmd_dir_after := dir |}.
Proof.
  unfold monitoring, tick. pose proof (command_step_spec cfg inp st) as Hc.
  destruct (command_step cfg inp st) as [[[command st1] cevs] dir].
  destruct Hc as (H1 & H2 & H3). intros Hm.
  exists command, st1, cevs, dir. repeat split; auto.
  destruct command as [[]|]; try reflexivity;
    apply negb_false_iff in Hm; rewrite Hm; reflexivity.
Qed.

Lemma last_active_at_ext (cfg : Config) (inp : TickInput) (st st1 : LoopState) :
  process_running st1 = process_running st ->
  last_seen_running st1 = last_seen_running st ->
  last_seen_running (fst (probe_edge cfg inp st1)) = last_active_at cfg inp st.
Proof.
  intros H1 H2. unfold last_active_at.
  destruct (probe_edge_spec cfg inp st) as (_ & _ & -> & _).
  destruct (probe_edge_spec cfg inp st1) as (_ & _ & -> & _).
  now rewrite H1, H2.
Qed.

(** When exactly an iteration invokes the timeout-triggered deletion. *)
Lemma timeout_deletion_iff (cfg : Config) (inp : TickInput) (st : LoopState) :
  timeout_deletion (tick cfg inp st) <->
  monitoring cfg inp st = true
  /\ is_process_running (processes_to_monitor cfg) (procs inp) = false
  /\ timeout cfg <= now_check inp - last_active_at cfg inp st.
Proof.
  unfold timeout_deletion.
  destruct (monitoring cfg inp st) eqn:Hm.
  - destruct (tick_monitoring cfg inp st Hm)
      as (command & st1 & cevs & dir & _ & _ & _ & H1 & H2 & Hno & ->).
    cbn [events]. rewrite in_app_iff.
    pose proof (last_active_at_ext cfg inp st st1 H1 H2) as Hl.
    destruct (probe_edge_spec cfg inp st1) as (Hpr & _ & _ & _).
    destruct (monitor_cases cfg inp st1)
      as [(Hr & _ & Hn) | [(Hr & Hlt & _ & Hn) | (Hr & Hge & Hin & _)]];
      rewrite Hpr in Hr; try rewrite Hl in Hlt; try rewrite Hl in Hge.
    + split; [tauto | intros (_ & H & _); congruence].
    + split; [tauto | intros (_ & _ & H); lia].
    + split; auto.
  - destruct (tick_not_monitoring cfg inp st Hm)
      as (command & st1 & cevs & dir & _ & Hno & ->).
    cbn [events]. split; [tauto | intros [H _]; discriminate].
Qed.

(** What an iteration that invokes the timeout-triggered deletion ends
    in, by the listing it obtains and the outcome of the deletions. *)
Lemma timeout_deletion_result (cfg : Config) (inp : TickInput) (st : LoopState) :
  timeout_deletion (tick cfg inp st) ->
  In ListInstances (events (tick cfg inp st))
  /\ process_running (state (tick cfg inp st)) = false
  /\ match get_instances (reply_timeout inp) (instance_identifier cfg) with
     | [] =>
         last_seen_running (state (tick cfg inp st))
         = now_reset inp - timeout cfg + MINUTE
         /\ outcome (tick cfg inp st) = Sleep CHECK_INTERVAL
     | instances =>
         if fst (delete_each (delete_timeout_ok inp) 0 instances)
         then outcome (tick cfg inp st) = Break
              /\ last_seen_running (state (tick cfg inp st)) = last_active_at cfg inp st
              /\ exists before,
                  events (tick cfg inp st)
                  = (before ++
                     [Publish "Instances Deleted, Monitoring Stopped" false None])%list
         else last_seen_running (state (tick cfg inp st)) = now_reset inp
              /\ outcome (tick cfg inp st) = Sleep CHECK_INTERVAL
     end.
Proof.
  intros Hf. pose proof Hf as Hf'. apply timeout_deletion_iff in Hf' as (Hm & Hcur & Hge).
  unfold timeout_deletion in Hf.
  destruct (tick_monitoring cfg inp st Hm)
    as (command & st1 & cevs & dir & _ & _ & _ & H1 & H2 & Hno & Ht).
  rewrite Ht in *. cbn [events state outcome] in *.
  pose proof (last_active_at_ext cfg inp st st1 H1 H2) as Hl.
  destruct (probe_edge_spec cfg inp st1) as (Hpr & _ & _ & _).
  apply in_app_iff in Hf as [Hf | Hf]; [tauto|].
  destruct (monitor_cases cfg inp st1)
    as [(_ & _ & Hn) | [(_ & _ & _ & Hn) | (Hr & _ & _ & Hli & Hcase)]]; try tauto.
  split; [apply in_app_iff; now right|].
  destruct (get_instances _ _) as [|i l].
  - rewrite Hcase. cbn [fst snd]. unfold set_last_seen_running.
    cbn [process_running last_seen_running]. auto.
  - destruct (fst (delete_each _ _ _)).
    + destruct Hcase as [Hcase [before Hpub]]. rewrite Hcase, Hpub. cbn [fst snd].
      repeat split; auto. exists (cevs ++ before)%list. now rewrite app_assoc.
    + rewrite Hcase. cbn [fst snd]. unfold set_last_seen_running.
      cbn [process_running last_seen_running]. auto.
Qed.

(** What an iteration that does not invoke it leaves in the loop
    variables. *)
Lemma quiet_tick_result (cfg : Config) (inp : TickInput) (st : LoopState) :
  ~ timeout_deletion (tick cfg inp st) ->
  outcome (tick cfg inp st) <> Break
  /\ if monitoring cfg inp st
     then last_seen_running (state (tick cfg inp st)) = last_active_at cfg inp st
          /\ process_running (state (tick cfg inp st))
             = is_process_running (processes_to_monitor cfg) (procs inp)
          /\ outcome (tick cfg inp st) = Sleep CHECK_INTERVAL
     else last_seen_running (state (tick cfg inp st)) = last_seen_running st
          /\ process_running (state (tick cfg inp st)) = process_running st.
Proof.
  unfold timeout_deletion. intros Hq.
  destruct (monitoring cfg inp st) eqn:Hm.
  - destruct (tick_monitoring cfg inp st Hm)
      as (command & st1 & cevs & dir & _ & _ & _ & H1 & H2 & Hno & Ht).
    rewrite Ht in *. cbn [events state outcome] in *.
    pose proof (last_active_at_ext cfg inp st st1 H1 H2) as Hl.
    destruct (probe_edge_spec cfg inp st1) as (Hpr & _ & _ & _).
    rewrite in_app_iff in Hq.
    destruct (monitor_cases cfg inp st1)
      as [(_ & Hr & _) | [(_ & _ & Hr & _) | (_ & _ & Hin & _)]];
      try tauto; rewrite Hr; cbn [fst snd]; repeat split; auto; discriminate.
  - destruct (tick_not_monitoring cfg inp st Hm)
      as (command & st1 & cevs & dir & Hc & _ & Ht).
    rewrite Ht. cbn [state outcome].
    pose proof (command_step_spec cfg inp st) as Hs. rewrite Hc in Hs.
    destruct Hs as (H1 & H2 & _).
    repeat split; auto. destruct command as [[]|]; discriminate.
Qed.

Lemma timeout_deletion_dec (cfg : Config) (inp : TickInput) (st : LoopState) :
  timeout_deletion (tick cfg inp st) \/ ~ timeout_deletion (tick cfg inp st).
Proof.
  rewrite timeout_deletion_iff.
  destruct (monitoring cfg inp st); [|right; intros [H _]; discriminate].
  destruct (is_process_running _ _); [right; intros (_ & H & _); discriminate|].
  destruct (Z_le_gt_dec (timeout cfg) (now_check inp - last_active_at cfg inp st)).
  - left. auto.
  - right. intros (_ & _ & H). lia.
Qed.

Lemma tick_keeps_lower_bound (cfg : Config) (inp : TickInput) (st : LoopState) (t : Z) :
  t <= last_seen_running st ->
  clock_after t inp ->
  t <= last_seen_running (state (tick cfg inp st)).
Proof.
  intros Hst (Hedge & Hcheck & Hreset).
  assert (Hl : t <= last_active_at cfg inp st).
  { destruct (last_active_at_cases cfg inp st) as [-> | ->]; lia. }
  destruct (timeout_deletion_dec cfg inp st) as [Hf | Hq].
  - pose proof Hf as Hge. apply timeout_deletion_iff in Hge as (_ & _ & Hge).
    apply timeout_deletion_result in Hf as (_ & _ & Hf).
    destruct (get_instances _ _) as [|i l].
    + destruct Hf as [-> _]. unfold MINUTE. lia.
    + destruct (fst (delete_each _ _ _)).
      * destruct Hf as (_ & -> & _). exact Hl.
      * destruct Hf as [-> _]. lia.
  - apply quiet_tick_result in Hq as [_ Hq].
    destruct (monitoring cfg inp st).
    + destruct Hq as (-> & _). exact Hl.
    + destruct Hq as (-> & _). exact Hst.
Qed.

(** Once [last_seen_running] is at [t] or later, and the clock does not
    go back, every later timeout-triggered deletion comes a full grace
    period after [t]. *)
Lemma run_timeout_deletion_after (cfg : Config) (inputs : list TickInput) :
  forall (st : LoopState) (t : Z),
    t <= last_seen_running st ->
    (forall inp, In inp inputs -> clock_after t inp) ->
    forall x, In x (run cfg inputs st) ->
      timeout_deletion (snd x) ->
      timeout cfg <= now_check (snd (fst x)) - t.
Proof.
  induction inputs as [|inp rest IH]; intros st t Hst Hclock x Hx Hf; [destruct Hx|].
  simpl in Hx. destruct Hx as [<- | Hx].
  - cbn [fst snd] in *. apply timeout_deletion_iff in Hf as (_ & _ & Hge).
    destruct (Hclock inp (or_introl eq_refl)) as (Hedge & _).
    destruct (last_active_at_cases cfg inp st) as [Hl | Hl]; rewrite Hl in Hge; lia.
  - destruct (outcome (tick cfg inp st)); try destruct Hx.
    apply (IH (state (tick cfg inp st)) t); auto.
    + apply tick_keeps_lower_bound; auto. apply Hclock. now left.
    + intros inp' Hin. apply Hclock. now right.
Qed.


(** ** The command channel *)

Lemma fnmatch_literal (p : ascii) (pat : string) (a : ascii) (f : string) :
  p <> "*"%char ->
  PyStr.fnmatch (String p pat) (String a f)
  = (Ascii.eqb p a && PyStr.fnmatch pat f)%bool.
Proof.
  intros Hp. destruct p as [[] [] [] [] [] [] [] []]; try reflexivity.
  now destruct Hp.
Qed.

Lemma pattern_first_char (c : Command) (f : string) :
  PyStr.fnmatch (pattern c) f = true ->
  exists rest,
    f = String match c with
               | Stop => "s" | DeleteNow => "d" | Pause => "p" | Resume => "r"
               end%char rest.
Proof.
  destruct f as [|a f]; [destruct c; discriminate|].
  destruct c; unfold pattern; rewrite fnmatch_literal by discriminate;
    rewrite andb_true_iff, Ascii.eqb_eq; intros [<- _]; eauto.
Qed.

Lemma patterns_disjoint (c c' : Command) (f : string) :
  PyStr.fnmatch (pattern c) f = true ->
  PyStr.fnmatch (pattern c') f = true ->
  c = c'.
Proof.
  intros H H'. apply pattern_first_char in H as [rest ->].
  apply pattern_first_char in H' as [rest' H'].
  destruct c, c'; congruence.
Qed.

Lemma unlink_all (files dir : list string) :
  fold_left (fun d f => unlink f d) files dir
  = List.filter (fun f => negb (existsb (String.eqb f) files)) dir.
Proof.
  revert dir. induction files as [|file rest IH]; intros dir; simpl.
  - induction dir as [|f dir IHd]; simpl; congruence.
  - rewrite IH. unfold unlink.
    induction dir as [|f dir IHd]; simpl; [reflexivity|].
    destruct (String.eqb f file); simpl; [exact IHd|].
    destruct (existsb _ rest); simpl; congruence.
Qed.

Lemma remove_files_all (removable : string -> bool) (files dir : list string) :
  (forall f, In f files -> removable f = true) ->
  remove_files removable files dir
  = (true, fold_left (fun d f => unlink f d) files dir).
Proof.
  revert dir. induction files as [|file rest IH]; intros dir Hall; simpl; [reflexivity|].
  rewrite (Hall file (or_introl eq_refl)). apply IH. intros f Hf. apply Hall. now right.
Qed.

Lemma unlink_glob (pat : string) (dir : list string) :
  fold_left (fun d f => unlink f d) (glob pat dir) dir
  = List.filter (fun f => negb (PyStr.fnmatch pat f)) dir.
Proof.
  rewrite unlink_all. apply filter_ext_in. intros f Hf. f_equal.
  destruct (PyStr.fnmatch pat f) eqn:Hm.
  - apply existsb_exists. exists f. split; [|apply String.eqb_refl].
    apply filter_In. auto.
  - destruct (existsb _ _) eqn:He; [|reflexivity].
    apply existsb_exists in He as (g & Hg & Heq).
    apply String.eqb_eq in Heq as <-. apply filter_In in Hg as [_ Hg]. congruence.
Qed.

Lemma drain_no_files (removable : string -> bool) (c : Command) (dir : list string) :
  glob (pattern c) dir = [] ->
  drain removable c dir = (NoFiles, dir).
Proof. unfold drain. now intros ->. Qed.

Lemma drain_removed (removable : string -> bool) (c : Command) (dir : list string) :
  glob (pattern c) dir <> [] ->
  (forall f, In f (glob (pattern c) dir) -> removable f = true) ->
  drain removable c dir
  = (Removed, List.filter (fun f => negb (PyStr.fnmatch (pattern c) f)) dir).
Proof.
  intros Hne Hall. unfold drain.
  pose proof (unlink_glob (pattern c) dir) as Hu.
  destruct (glob (pattern c) dir) as [|file files]; [congruence|].
  now rewrite (remove_files_all removable _ dir Hall), Hu.
Qed.

Lemma glob_same_after_removal (c : Command) (dir : list string) :
  glob (pattern c) (List.filter (fun f => negb (PyStr.fnmatch (pattern c) f)) dir) = [].
Proof.
  unfold glob. induction dir as [|f dir IH]; simpl; [reflexivity|].
  destruct (PyStr.fnmatch (pattern c) f) eqn:Hc; simpl; [exact IH|].
  now rewrite Hc.
Qed.


(** The first kind with a matching file is the command returned, when
    its files can be removed. *)
Lemma check_for_commands_returns (removable : string -> bool) (dir : list string)
    (c : Command) :
  glob (pattern c) dir <> [] ->
  (forall c', (rank c' < rank c)%nat -> glob (pattern c') dir = []) ->
  (forall f, In f (glob (pattern c) dir) -> removable f = true) ->
  check_for_commands removable dir
  = (Some c, List.filter (fun f => negb (PyStr.fnmatch (pattern c) f)) dir, []).
Proof.
  intros Hne Hhigher Hrem. unfold check_for_commands.
  destruct c; simpl in Hhigher;
    repeat match goal with
    | |- context [drain removable ?k dir] =>
        first [ rewrite (drain_removed removable k dir Hne Hrem)
              | rewrite (drain_no_files removable k dir) by (apply Hhigher; simpl; lia) ]
    end; reflexivity.
Qed.


Lemma delete_each_succeeds (delete_ok : nat -> Z -> bool) (instances : list Instance) (k0 : nat) :
  fst (delete_each delete_ok k0 instances) = true <->
  deletion_succeeds (fun k => delete_ok (k0 + k)%nat) instances.
Proof.
  revert k0. induction instances as [|i rest IH]; intros k0; simpl.
  - split; [discriminate|]. intros (k & instance & id & H & _). destruct k; discriminate.
  - specialize (IH (S k0)).
    destruct (delete_each delete_ok (S k0) rest) as [later evs]. cbn [fst] in IH.
    assert (Hshift : deletion_succeeds (fun k => delete_ok (S k0 + k)%nat) rest <->
                     exists k instance id, nth_error rest k = Some instance
                       /\ truthy_id (inst_id instance) = Some id
                       /\ delete_ok (k0 + S k)%nat id = true).
    { unfold deletion_succeeds.
      split; intros (k & instance & id & H1 & H2 & H3); exists k, instance, id;
        repeat split; auto; now replace (k0 + S k)%nat with (S k0 + k)%nat in * by lia. }
    destruct (truthy_id (inst_id i)) as [id|] eqn:Hid; cbn [fst].
    + rewrite orb_true_iff, IH, Hshift. split.
      * intros [Hok | (k & instance & id' & H1 & H2 & H3)].
        -- exists 0%nat, i, id. rewrite Nat.add_0_r. auto.
        -- exists (S k), instance, id'. auto.
      * intros (k & instance & id' & H1 & H2 & H3). destruct k as [|k].
        -- left. simpl in H1. injection H1 as <-. rewrite Nat.add_0_r in H3. congruence.
        -- right. exists k, instance, id'. auto.
    + rewrite IH, Hshift. split.
      * intros (k & instance & id' & H1 & H2 & H3). exists (S k), instance, id'. auto.
      * intros (k & instance & id' & H1 & H2 & H3). destruct k as [|k].
        -- simpl in H1. injection H1 as <-. congruence.
        -- exists k, instance, id'. auto.
Qed.

Lemma run_ends_unless_sleep (cfg : Config) (inp : TickInput) (rest : list TickInput)
    (st : LoopState) :
  (forall seconds, outcome (tick cfg inp st) <> Sleep seconds) ->
  run cfg (inp :: rest) st = [(st, inp, tick cfg inp st)].
Proof.
  intros H. simpl. destruct (outcome (tick cfg inp st)) eqn:Ho; try reflexivity.
  now destruct (H seconds).
Qed.


Lemma monitor_timeout_deletion_outcome (cfg : Config) (inp : TickInput) (st : LoopState)
    (i : Instance) (l : list Instance) :
  timeout_deletion (tick cfg inp st) ->
  get_instances (reply_timeout inp) (instance_identifier cfg) = i :: l ->
  (deletion_succeeds (delete_timeout_ok inp) (i :: l) ->
     outcome (tick cfg inp st) = Break
     /\ exit_status (outcome (tick cfg inp st)) = Some 0
     /\ (exists before,
           events (tick cfg inp st)
           = (before ++ [Publish "Instances Deleted, Monitoring Stopped" false None])%list)
     /\ forall rest, run cfg (inp :: rest) st = [(st, inp, tick cfg inp st)])
  /\ (~ deletion_succeeds (delete_timeout_ok inp) (i :: l) ->
     outcome (tick cfg inp st) = Sleep CHECK_INTERVAL
     /\ last_seen_running (state (tick cfg inp st)) = now_reset inp
     /\ forall rest x,
         (forall inp', In inp' rest -> clock_after (now_reset inp) inp') ->
         In x (run cfg rest (state (tick cfg inp st))) ->
         timeout_deletion (snd x) ->
         timeout cfg <= now_check (snd (fst x)) - now_reset inp).
Proof.
  intros Hf Hlist. apply timeout_deletion_result in Hf as (_ & _ & Hf).
  rewrite Hlist in Hf.
  pose proof (delete_each_succeeds (delete_timeout_ok inp) (i :: l) 0) as Hs.
  destruct (fst (delete_each (delete_timeout_ok inp) 0 (i :: l))).
  - destruct Hf as (Hout & _ & Hpub). split.
    + intros _. rewrite Hout. repeat split; auto.
      intros rest. apply run_ends_unless_sleep. rewrite Hout. discriminate.
    + intros Hnone. destruct Hnone. now apply Hs.
  - destruct Hf as (Hlast & Hout). split.
    + intros Hsome. apply Hs in Hsome. discriminate.
    + intros _. repeat split; auto.
      intros rest x Hclock Hx Hfx.
      apply (run_timeout_deletion_after cfg rest (state (tick cfg inp st))); auto.
      lia.
Qed.

(** C6.  Evaluation of [check_for_commands] on a directory holding a stop
    file that cannot be removed and a pause file: the removal error of the
    stop block is logged, but the block's [return "stop"] is skipped with
    it, and the call returns "pause" while the stop file is still
    present. *)
Theorem stop_removal_failure_delivers_pause :
  check_for_commands (fun f => negb (String.eqb f "stop_1.json"))
                     ["stop_1.json"; "pause_1.json"]
  = (Some Pause, ["stop_1.json"], [Stop]).
Proof. vm_compute. reflexivity. Qed.

(** More generally, the stop command is not delivered as long as the first
    stop file found cannot be removed. *)
Lemma unremovable_stop_never_delivered (removable : string -> bool) (dir : list string) (f : string) :
  In f (glob (pattern Stop) dir) ->
  (forall g, In g (glob (pattern Stop) dir) -> removable g = false) ->
  fst (fst (check_for_commands removable dir)) <> Some Stop.
Proof.
  intros Hin Hall. unfold check_for_commands, drain at 1.
  destruct (glob (pattern Stop) dir) as [|g files]; [destruct Hin|].
  simpl. rewrite (Hall g (or_introl eq_refl)).
  destruct (drain removable DeleteNow dir) as [[] d2]; try discriminate;
  destruct (drain removable Pause d2) as [[] d3]; try discriminate;
  destruct (drain removable Resume d3) as [[] d4]; discriminate.
Qed.

(** C4.  When the listing is empty:
    - on the timeout path the iteration sleeps and goes on, with
      [last_seen_running] set to [now - timeout + 1 minute]; on the
      following unpaused iterations whose probe still reports not-running
      the deletion is attempted again exactly when one minute has elapsed
      since that reset, neither at once nor after a fresh grace period;
    - on the [delete_now] path the loop variables are left as they were,
      nothing is deleted, and the iteration goes on as it would have
      without the command: it sleeps if paused, and otherwise runs its
      monitoring part from the unchanged variables. *)
Theorem no_matching_instance (cfg : Config) (inp : TickInput) (st : LoopState) :
  (timeout_deletion (tick cfg inp st) ->
   get_instances (reply_timeout inp) (instance_identifier cfg) = [] ->
   outcome (tick cfg inp st) = Sleep CHECK_INTERVAL
   /\ last_seen_running (state (tick cfg inp st))
      = now_reset inp - timeout cfg + MINUTE
   /\ forall inp',
       monitoring cfg inp' (state (tick cfg inp st)) = true ->
       is_process_running (processes_to_monitor cfg) (procs inp') = false ->
       (timeout_deletion (tick cfg inp' (state (tick cfg inp st))) <->
        MINUTE <= now_check inp' - now_reset inp))
  /\ (fst (fst (check_for_commands (removable inp) (cmd_dir inp))) = Some DeleteNow ->
      get_instances (reply_delete_now inp) (instance_identifier cfg) = [] ->
      fst (fst (command_step cfg inp st)) = (Some DeleteNow, st)
      /\ (forall instance_id ok, ~ In (DeleteInstance instance_id ok)
                                      (snd (fst (command_step cfg inp st))))
      /\ (if paused st
          then state (tick cfg inp st) = st
               /\ outcome (tick cfg inp st) = Sleep COMMAND_CHECK_INTERVAL
          else state (tick cfg inp st) = fst (fst (monitor cfg inp st))
               /\ outcome (tick cfg inp st) = snd (fst (monitor cfg inp st)))).
Proof.
  split.
  - intros Hf Hnone. apply timeout_deletion_result in Hf as (_ & Hpr & Hf).
    rewrite Hnone in Hf. destruct Hf as [Hlast Hout].
    split; [exact Hout|]. split; [exact Hlast|].
    intros inp' Hm Hcur.
    assert (Hl : last_active_at cfg inp' (state (tick cfg inp st))
                 = now_reset inp - timeout cfg + MINUTE).
    { unfold last_active_at.
      destruct (probe_edge_spec cfg inp' (state (tick cfg inp st))) as (_ & _ & -> & _).
      now rewrite Hcur, Hpr. }
    rewrite timeout_deletion_iff, Hl. split.
    + intros (_ & _ & Hge). lia.
    + intros Hmin. repeat split; auto. lia.
  - intros Hcmd Hnone. unfold tick, command_step.
    destruct (check_for_commands _ _) as [[command dir] errors]. simpl in Hcmd. subst command.
    unfold on_command. rewrite Hnone. cbn [fst snd]. repeat split.
    + intros instance_id ok. rewrite in_app_iff, in_map_iff.
      intros [(c & H & _) | H]; [discriminate | simpl in H; intuition discriminate].
    + destruct (paused st); [auto|].
      destruct (monitor cfg inp st) as [[st2 out] mevs]. auto.
Qed.







End MonitorLoop.

(** ** Selectors *)

Lemma truthy_nonempty (s : string) : s <> "" -> PyStr.truthy s = true.
Proof. destruct s; [congruence | reflexivity]. Qed.







(** ** The status publisher *)

Lemma update_status_same_second (t_stamp t_name t_stamp' t_name' : Z)
    (status status' : string) (running running' : bool)
    (remaining remaining' : option string) (dir : gmap string Monitor.StatusData) :
  t_name `quot` 1000000 = t_name' `quot` 1000000 ->
  Monitor.update_status t_stamp' t_name' status' running' remaining'
    (Monitor.update_status t_stamp t_name status running remaining dir)
  = Monitor.update_status t_stamp' t_name' status' running' remaining' dir.
Proof.
  intros Hsame. unfold Monitor.update_status, Monitor.status_file.
  rewrite Hsame. apply insert_insert_eq.
Qed.

(** C9.  Evaluation of [update_status] on two calls made half a second
    apart within one wall-clock second, as when an iteration publishes the
    edge and then the countdown: both calls compute the file name
    status_1700000000.json, and the second call replaces the record the
    first one wrote; the directory holds one file. *)
Theorem status_overwritten_within_one_second :
  let first :=
    Monitor.update_status 1700000000200000 1700000000200150
                  "Process Not Running" false None ∅ in
  let second :=
    Monitor.update_status 1700000000700000 1700000000700150
                  "Process Not Running - 9m 59s until deletion" false (Some "9m 59s")
                  first in
  Monitor.status_file 1700000000200150 = "status_1700000000.json"
  /\ Monitor.status_file 1700000000700150 = "status_1700000000.json"
  /\ first !! "status_1700000000.json"
     = Some {| Monitor.timestamp := 1700000000200000; Monitor.status := "Process Not Running";
               Monitor.sd_process_running := false; Monitor.time_remaining := None |}
  /\ second !! "status_1700000000.json"
     = Some {| Monitor.timestamp := 1700000000700000;
               Monitor.status := "Process Not Running - 9m 59s until deletion";
               Monitor.sd_process_running := false; Monitor.time_remaining := Some "9m 59s" |}
  /\ size second = 1%nat.
Proof.
  vm_compute. repeat split.
Qed.
(** ** The stand-alone loop *)

Lemma standalone_delete_each_event (delete_ok : nat -> Z -> bool)
    (instances : list Instance) (k0 k : nat) (instance : Instance) (instance_id : Z) :
  nth_error instances k = Some instance ->
  Standalone.id_of instance = Some instance_id ->
  In (Standalone.DeleteInstance instance_id (delete_ok (k0 + k)%nat instance_id))
     (Standalone.delete_each delete_ok k0 instances).
Proof.
  revert k0 k. induction instances as [|i rest IH]; intros k0 k Hnth Hid.
  - destruct k; discriminate.
  - destruct k as [|k]; simpl in Hnth.
    + injection Hnth as ->. simpl. rewrite Hid, Nat.add_0_r. now left.
    + specialize (IH (S k0) k Hnth Hid).
      replace (S k0 + k)%nat with (k0 + S k)%nat in IH by lia.
      simpl. destruct (Standalone.id_of i); [|exact IH].
      right. apply in_app_iff. now right.
Qed.

Lemma standalone_timeout_attempt (cfg : Standalone.Config) (inp : Standalone.TickInput)
    (st : Standalone.LoopState) (i : Instance) (l : list Instance) :
  Standalone.is_process_running (Standalone.process_names cfg) (Standalone.procs inp) = false ->
  Standalone.timeout_minutes cfg * MINUTE
    <= Standalone.now_inactive inp - Standalone.last_active_time st ->
  Standalone.instances_terminated st = false ->
  Standalone.get_instances (Standalone.sdk_reply inp) (Standalone.rest_reply inp)
                           (Standalone.instance_label cfg) = i :: l ->
  let st' := {| Standalone.last_active_time := Standalone.last_active_time st;
                Standalone.instances_terminated := true |} in
  Standalone.tick cfg inp st
  = (st', (Standalone.ListInstances
           :: Standalone.delete_each (Standalone.delete_ok inp) 0 (i :: l)
           ++ [Standalone.SleepFor (Standalone.check_interval cfg)])%list)
  /\ forall inp',
      Standalone.is_process_running (Standalone.process_names cfg)
                                    (Standalone.procs inp') = false ->
      Standalone.tick cfg inp' st'
      = (st', [Standalone.SleepFor (Standalone.check_interval cfg)]).
Proof.
  intros Hcur Hge Hterm Hlist st'. split.
  - unfold Standalone.tick, Standalone.step. rewrite Hcur, Hterm, Hlist.
    apply Z.leb_le in Hge. rewrite Hge. reflexivity.
  - intros inp' Hcur'. unfold Standalone.tick, Standalone.step. rewrite Hcur'.
    subst st'. cbn [Standalone.instances_terminated]. now rewrite andb_false_r.
Qed.

(** C3, amended.  In [monitor_process.py], when the timeout-triggered
    deletion obtains a non-empty listing: if at least one deletion
    succeeds the iteration publishes "Instances Deleted, Monitoring
    Stopped" as its last effect and leaves the loop through [break], the
    process ending with status 0; if none succeeds the iteration sleeps,
    [last_seen_running] is set to now, and no later deletion is attempted
    before a full grace period has elapsed since then.  In
    [vast_auto_shutoff.py] an attempt in which a deletion succeeds does
    not end the loop: the iteration sets [instances_terminated], keeps
    [last_active_time], sleeps, and the following iterations attempt
    nothing as long as the probe reports not-running. *)
Theorem timeout_deletion_outcome :
  (forall cfg inp st i l,
      timeout_deletion (Monitor.tick cfg inp st) ->
      Monitor.get_instances (Monitor.reply_timeout inp) (Monitor.instance_identifier cfg)
      = i :: l ->
      (deletion_succeeds (Monitor.delete_timeout_ok inp) (i :: l) ->
         Monitor.outcome (Monitor.tick cfg inp st) = Monitor.Break
         /\ Monitor.exit_status (Monitor.outcome (Monitor.tick cfg inp st)) = Some 0
         /\ (exists before,
               Monitor.events (Monitor.tick cfg inp st)
               = (before ++ [Monitor.Publish "Instances Deleted, Monitoring Stopped"
                                             false None])%list)
         /\ forall rest,
             Monitor.run cfg (inp :: rest) st = [(st, inp, Monitor.tick cfg inp st)])
      /\ (~ deletion_succeeds (Monitor.delete_timeout_ok inp) (i :: l) ->
         Monitor.outcome (Monitor.tick cfg inp st) = Monitor.Sleep Monitor.CHECK_INTERVAL
         /\ Monitor.last_seen_running (Monitor.state (Monitor.tick cfg inp st))
            = Monitor.now_reset inp
         /\ forall rest x,
             (forall inp', In inp' rest -> clock_after (Monitor.now_reset inp) inp') ->
             In x (Monitor.run cfg rest (Monitor.state (Monitor.tick cfg inp st))) ->
             timeout_deletion (snd x) ->
             Monitor.timeout cfg <= Monitor.now_check (snd (fst x)) - Monitor.now_reset inp))
  /\ (forall cfg inp st i l,
      Standalone.is_process_running (Standalone.process_names cfg) (Standalone.procs inp)
      = false ->
      Standalone.timeout_minutes cfg * MINUTE
        <= Standalone.now_inactive inp - Standalone.last_active_time st ->
      Standalone.instances_terminated st = false ->
      Standalone.get_instances (Standalone.sdk_reply inp) (Standalone.rest_reply inp)
                               (Standalone.instance_label cfg) = i :: l ->
      standalone_deletion_succeeds (Standalone.delete_ok inp) (i :: l) ->
      let st' := {| Standalone.last_active_time := Standalone.last_active_time st;
                    Standalone.instances_terminated := true |} in
      fst (Standalone.tick cfg inp st) = st'
      /\ (exists instance_id,
            In (Standalone.DeleteInstance instance_id true)
               (snd (Standalone.tick cfg inp st)))
      /\ (exists before,
            snd (Standalone.tick cfg inp st)
            = (before ++ [Standalone.SleepFor (Standalone.check_interval cfg)])%list)
      /\ forall inp',
          Standalone.is_process_running (Standalone.process_names cfg)
                                        (Standalone.procs inp') = false ->
          Standalone.tick cfg inp' st'
          = (st', [Standalone.SleepFor (Standalone.check_interval cfg)])).
Proof.
  split.
  - intros cfg inp st i l. apply monitor_timeout_deletion_outcome.
  - intros cfg inp st i l Hcur Hge Hterm Hlist (k & instance & id & Hnth & Hid & Hok) st'.
    destruct (standalone_timeout_attempt cfg inp st i l Hcur Hge Hterm Hlist) as [Ht Hnext].
    fold st' in Ht, Hnext. rewrite Ht. cbn [fst snd].
    split; [reflexivity|]. split; [|split; [|exact Hnext]].
    + exists id. right. apply in_app_iff. left.
      pose proof (standalone_delete_each_event (Standalone.delete_ok inp) (i :: l) 0 k
                    instance id Hnth Hid) as He.
      simpl in He. now rewrite Hok in He.
    + exists (Standalone.ListInstances
              :: Standalone.delete_each (Standalone.delete_ok inp) 0 (i :: l)).
      reflexivity.
Qed.

(** C3, counterexample.  The stand-alone loop, fifteen minutes after the
    last activity, finds the instance and deletes it; the loop does not
    end: the next iteration runs (and only sleeps).  When instead the
    deletion fails, [last_active_time] is not set to the time of the
    attempt and, sixteen minutes later, no new attempt is made. *)
Lemma standalone_loop_counterexample :
  let st0 := {| Standalone.last_active_time := 0;
                Standalone.instances_terminated := false |} in
  let st1 := {| Standalone.last_active_time := 0;
                Standalone.instances_terminated := true |} in
  Standalone.run Scenario.standalone_cfg
    [Scenario.standalone_input 15 true; Scenario.standalone_input 31 true] st0
  = [(st1, [Standalone.ListInstances; Standalone.DeleteInstance 7 true;
            Standalone.Notify 7; Standalone.SleepFor 60]);
     (st1, [Standalone.SleepFor 60])]
  /\ Standalone.run Scenario.standalone_cfg
       [Scenario.standalone_input 15 false; Scenario.standalone_input 31 false] st0
     = [(st1, [Standalone.ListInstances; Standalone.DeleteInstance 7 false;
               Standalone.SleepFor 60]);
        (st1, [Standalone.SleepFor 60])].
Proof. vm_compute. split; reflexivity. Qed.

(** ** The statements at work on concrete situations *)




(** C3 at work: the timeout-triggered deletion of the selected instance
    succeeds and the loop is left through [break]. *)
Lemma timeout_deletion_outcome_witness :
  let inp := Scenario.input [] Scenario.idle_table 600
                            (ApiInstances [Scenario.xtts; Scenario.other]) true in
  let st := Monitor.initial 0 in
  (timeout_deletion (Monitor.tick Scenario.cfg inp st)
   /\ Monitor.get_instances (Monitor.reply_timeout inp)
                            (Monitor.instance_identifier Scenario.cfg) = [Scenario.xtts]
   /\ deletion_succeeds (Monitor.delete_timeout_ok inp) [Scenario.xtts])
  /\ Monitor.outcome (Monitor.tick Scenario.cfg inp st) = Monitor.Break.
Proof.
  intros inp st.
  assert (Hf : timeout_deletion (Monitor.tick Scenario.cfg inp st)).
  { unfold timeout_deletion. vm_compute. auto 10. }
  assert (Hl : Monitor.get_instances (Monitor.reply_timeout inp)
                 (Monitor.instance_identifier Scenario.cfg) = [Scenario.xtts])
    by reflexivity.
  assert (Hs : deletion_succeeds (Monitor.delete_timeout_ok inp) [Scenario.xtts]).
  { exists 0%nat, Scenario.xtts, 7. repeat split. }
  split; [auto|].
  exact (proj1 (proj1 (proj1 timeout_deletion_outcome Scenario.cfg inp st
                         Scenario.xtts [] Hf Hl) Hs)).
Defined.

(** C4 at work: no listed instance carries the selected label, and the
    timer is set so that one minute remains. *)
Lemma no_matching_instance_witness :
  let inp := Scenario.input [] Scenario.idle_table 600
                            (ApiInstances [Scenario.other]) true in
  let st := Monitor.initial 0 in
  (timeout_deletion (Monitor.tick Scenario.cfg inp st)
   /\ Monitor.get_instances (Monitor.reply_timeout inp)
                            (Monitor.instance_identifier Scenario.cfg) = [])
  /\ Monitor.last_seen_running (Monitor.state (Monitor.tick Scenario.cfg inp st))
     = Monitor.now_reset inp - 10 * MINUTE + MINUTE.
Proof.
  intros inp st.
  assert (Hf : timeout_deletion (Monitor.tick Scenario.cfg inp st)).
  { unfold timeout_deletion. vm_compute. auto 10. }
  assert (Hl : Monitor.get_instances (Monitor.reply_timeout inp)
                 (Monitor.instance_identifier Scenario.cfg) = [])
    by reflexivity.
  split; [auto|].
  exact (proj1 (proj2 (proj1 (no_matching_instance Scenario.cfg inp st) Hf Hl))).
Defined.



(** ** Examples *)

Example lower_mixed : PyStr.lower "SkyrimVR.EXE" = "skyrimvr.exe".
Proof. reflexivity. Qed.

Example strip_both : PyStr.strip "  a b  " = "a b".
Proof. reflexivity. Qed.

Example split_trailing_comma : PyStr.split "," "a, b," = ["a"; " b"; ""].
Proof. reflexivity. Qed.

Example split_empty : PyStr.split "," "" = [""].
Proof. reflexivity. Qed.

Example contains_middle : PyStr.contains "rim" "skyrim.exe" = true.
Proof. reflexivity. Qed.

Example fnmatch_stop : PyStr.fnmatch "stop_*.json" "stop_1700000000.json" = true.
Proof. reflexivity. Qed.

Example fnmatch_stop_short : PyStr.fnmatch "stop_*.json" "stop_.json" = true.
Proof. reflexivity. Qed.

Example fnmatch_other : PyStr.fnmatch "stop_*.json" "stop_1.json.tmp" = false.
Proof. reflexivity. Qed.

Example int_plain : PyStr.int "12345" = Some 12345.
Proof. reflexivity. Qed.

Example int_spaces_sign : PyStr.int " -4_2 " = Some (-42).
Proof. reflexivity. Qed.

Example int_label : PyStr.int "XTTS" = None.
Proof. reflexivity. Qed.

Example int_bad_underscore : PyStr.int "4__2" = None.
Proof. reflexivity. Qed.

Example int_empty : PyStr.int "" = None.
Proof. reflexivity. Qed.

Example probe_substring_mode :
  Monitor.scan (PyStr.split "," "skyrimvr.exe, skyrim.exe") Scenario.busy_table
  = (Some ("skyrimvr.exe", 4242), 3%nat).
Proof. reflexivity. Qed.

Example probe_exact_mode :
  Standalone.scan ["skyrimvr.exe"; "skyrim.exe"] Scenario.busy_table = (true, 3%nat)
  /\ Standalone.scan ["skyrim"] Scenario.busy_table = (false, 3%nat).
Proof. split; reflexivity. Qed.

(** The countdown starts again in full after the workload has been seen:
    nine minutes into the countdown the probe reports running, and two
    minutes later, the workload gone again, the status shows the whole
    grace period but a second. *)
Example countdown_restarts :
  List.map (fun x => (Monitor.outcome (snd x), Monitor.events (snd x)))
    (Monitor.run Scenario.cfg
       [Scenario.input [] Scenario.busy_table 540 ApiError false;
        Scenario.input [] Scenario.idle_table 660 ApiError false]
       (Monitor.initial 0))
  = [(Monitor.Sleep 5,
      [Monitor.Log (Monitor.ProcessFound "skyrimvr.exe" 4242);
       Monitor.Log Monitor.ProcessStarted;
       Monitor.Publish "Process Running" true None;
       Monitor.Publish "Process Running" true (Some "N/A - Process Running")]);
     (Monitor.Sleep 5,
      [Monitor.Log Monitor.ProcessStopped;
       Monitor.Publish "Process Not Running" false None;
       Monitor.Publish "Process Not Running - 9m 59s until deletion" false
                       (Some "9m 59s")])].
Proof. vm_compute. reflexivity. Qed.

(** A workload that never runs, a one-minute grace period and an
    iteration every five seconds: the thirteenth iteration, sixty seconds
    after the start, is the first to delete, and it ends the loop. *)
Example deletion_after_one_minute :
  let cfg := {| Monitor.processes_to_monitor := "worker.exe";
                Monitor.timeout := MINUTE;
                Monitor.instance_identifier := "7" |} in
  let at_second s :=
    Scenario.input [] Scenario.idle_table s
                   (ApiInstances [Scenario.xtts; Scenario.other]) true in
  List.map (fun x => Monitor.outcome (snd x))
    (Monitor.run cfg
       (List.map at_second [0; 5; 10; 15; 20; 25; 30; 35; 40; 45; 50; 55; 60; 65; 70])
       (Monitor.initial 0))
  = (List.repeat (Monitor.Sleep 5) 12 ++ [Monitor.Break])%list.
Proof. vm_compute. reflexivity. Qed.

(** A paused loop handles commands only: a [delete_now] deletes the
    selected instance, and neither the probe nor the timer is looked at,
    although the grace period is long over. *)
Example delete_now_while_paused :
  let st := {| Monitor.process_running := false;
               Monitor.last_seen_running := 0;
               Monitor.paused := true |} in
  Monitor.tick Scenario.cfg
    (Scenario.input ["delete_now_1700003600.json"] Scenario.idle_table 3600
                    (ApiInstances [Scenario.other; Scenario.xtts]) true)
    st
  = {| Monitor.state := st;
       Monitor.outcome := Monitor.Sleep 1;
       Monitor.events := [Monitor.Log Monitor.ReceivedDeleteNow;
                          Monitor.ListInstances;
                          Monitor.DeleteInstance 7 true];
       Monitor.cmd_dir_after := [] |}.
Proof. vm_compute. reflexivity. Qed.

(** With the stop file impossible to remove and the grace period over,
    the iteration goes on to the timeout branch and deletes the
    instance. *)
Example unremovable_stop_then_deletion :
  let inp := {| Monitor.cmd_dir := ["stop_1700000600.json"];
                Monitor.removable := fun _ => false;
                Monitor.procs := Scenario.idle_table;
                Monitor.now_edge := 600000000;
                Monitor.now_check := 600000001;
                Monitor.now_reset := 600000002;
                Monitor.reply_delete_now := ApiInstances [Scenario.xtts];
                Monitor.reply_timeout := ApiInstances [Scenario.xtts];
                Monitor.delete_now_ok := fun _ _ => true;
                Monitor.delete_timeout_ok := fun _ _ => true |} in
  let r := Monitor.tick Scenario.cfg inp (Monitor.initial 0) in
  Monitor.outcome r = Monitor.Break
  /\ Monitor.cmd_dir_after r = ["stop_1700000600.json"]
  /\ Monitor.events r
     = [Monitor.Log (Monitor.RemoveError Monitor.Stop);
        Monitor.Log Monitor.TimeoutReached;
        Monitor.ListInstances;
        Monitor.DeleteInstance 7 true;
        Monitor.Log Monitor.DeletedExiting;
        Monitor.Publish "Instances Deleted, Monitoring Stopped" false None].
Proof. vm_compute. repeat split. Qed.

(** * Further properties of the scripts *)

Section CommandChannel.
Import Monitor.

Lemma remove_files_ok (removable : string -> bool) (files dir : list string) :
  fst (remove_files removable files dir) = forallb removable files.
Proof.
  revert dir. induction files as [|file rest IH]; intros dir; simpl; [reflexivity|].
  destruct (removable file); [apply IH | reflexivity].
Qed.

Lemma remove_files_subset (removable : string -> bool) (files dir : list string) (f : string) :
  In f (snd (remove_files removable files dir)) -> In f dir.
Proof.
  revert dir. induction files as [|file rest IH]; intros dir; simpl; [auto|].
  destruct (removable file); [|auto].
  intros H. apply IH in H. unfold unlink in H. apply filter_In in H. tauto.
Qed.

Lemma remove_files_keeps (removable : string -> bool) (files dir : list string) (f : string) :
  In f dir -> ~ In f files -> In f (snd (remove_files removable files dir)).
Proof.
  revert dir. induction files as [|file rest IH]; intros dir Hin Hnot; simpl; [auto|].
  destruct (removable file); [|auto].
  apply IH.
  - unfold unlink. apply filter_In. split; [exact Hin|].
    destruct (String.eqb_spec f file) as [->|]; [|reflexivity].
    destruct Hnot. now left.
  - intros H. apply Hnot. now right.
Qed.

Lemma glob_unlink_other (pat file : string) (dir : list string) :
  PyStr.fnmatch pat file = false ->
  glob pat (unlink file dir) = glob pat dir.
Proof.
  intros Hno. unfold glob, unlink. induction dir as [|f dir IH]; simpl; [reflexivity|].
  destruct (String.eqb_spec f file) as [->|Hne]; simpl.
  - now rewrite Hno.
  - now rewrite IH.
Qed.

Lemma glob_remove_files_other (removable : string -> bool) (pat : string)
    (files dir : list string) :
  (forall f, In f files -> PyStr.fnmatch pat f = false) ->
  glob pat (snd (remove_files removable files dir)) = glob pat dir.
Proof.
  revert dir. induction files as [|file rest IH]; intros dir Hno; simpl; [reflexivity|].
  destruct (removable file); [|reflexivity].
  rewrite IH by (intros f Hf; apply Hno; now right).
  apply glob_unlink_other. apply Hno. now left.
Qed.

(** What one block does, in terms of [deliverable]. *)
Lemma drain_spec (removable : string -> bool) (c : Command) (dir : list string) :
  (fst (drain removable c dir) = Removed <-> deliverable removable dir c = true)
  /\ (forall c', c' <> c ->
        glob (pattern c') (snd (drain removable c dir)) = glob (pattern c') dir)
  /\ (fst (drain removable c dir) = Removed ->
        glob (pattern c) (snd (drain removable c dir)) = [])
  /\ (forall f, In f (snd (drain removable c dir)) -> In f dir)
  /\ (forall f, In f dir -> PyStr.fnmatch (pattern c) f = false ->
                In f (snd (drain removable c dir))).
Proof.
  unfold drain, deliverable.
  pose proof (remove_files_ok removable (glob (pattern c) dir) dir) as Hok.
  pose proof (remove_files_subset removable (glob (pattern c) dir) dir) as Hsub.
  pose proof (remove_files_keeps removable (glob (pattern c) dir) dir) as Hkeep.
  pose proof (fun pat => glob_remove_files_other removable pat (glob (pattern c) dir) dir)
    as Hother.
  pose proof (remove_files_all removable (glob (pattern c) dir) dir) as Hall.
  pose proof (unlink_glob (pattern c) dir) as Hu.
  pose proof (glob_same_after_removal c dir) as Hgone.
  assert (Hmatch : forall f, In f (glob (pattern c) dir) -> PyStr.fnmatch (pattern c) f = true).
  { intros f Hf. apply filter_In in Hf. tauto. }
  destruct (glob (pattern c) dir) as [|file files] eqn:Hg.
  - cbn [fst snd]. repeat split; auto; discriminate.
  - destruct (remove_files removable (file :: files) dir) as [[|] dir'] eqn:Hr;
      cbn [fst snd] in *.
    + split; [split; auto|]. split.
      { intros c' Hne. apply Hother. intros f Hf.
        destruct (PyStr.fnmatch (pattern c') f) eqn:Hc'; [|reflexivity].
        destruct Hne. symmetry. exact (patterns_disjoint c c' f (Hmatch f Hf) Hc'). }
      split.
      { intros _. symmetry in Hok. rewrite forallb_forall in Hok.
        specialize (Hall Hok). injection Hall as Hd. rewrite Hd.
        change (glob (pattern c)
                  (fold_left (fun d f => unlink f d) (file :: files) dir) = []).
        rewrite Hu. exact Hgone. }
      split; [exact Hsub|].
      intros f Hin Hf. apply Hkeep; [exact Hin|]. intros Hm. apply Hmatch in Hm. congruence.
    + split; [split; [discriminate | intros H; rewrite <- Hok in H; discriminate]|]. split.
      { intros c' Hne. apply Hother. intros f Hf.
        destruct (PyStr.fnmatch (pattern c') f) eqn:Hc'; [|reflexivity].
        destruct Hne. symmetry. exact (patterns_disjoint c c' f (Hmatch f Hf) Hc'). }
      split; [discriminate|]. split; [exact Hsub|].
      intros f Hin Hf. apply Hkeep; [exact Hin|]. intros Hm. apply Hmatch in Hm. congruence.
Qed.

Lemma deliverable_glob (removable : string -> bool) (dir dir' : list string) (c : Command) :
  glob (pattern c) dir' = glob (pattern c) dir ->
  deliverable removable dir' c = deliverable removable dir c.
Proof. unfold deliverable. now intros ->. Qed.

Lemma deliverable_needs_file (removable : string -> bool) (dir : list string) (c : Command) :
  glob (pattern c) dir = [] -> deliverable removable dir c = false.
Proof. unfold deliverable. now intros ->. Qed.

(** Everything one call of [check_for_commands] does. *)
Lemma check_for_commands_spec (removable : string -> bool) (dir : list string) :
  let r := fst (fst (check_for_commands removable dir)) in
  let dir' := snd (fst (check_for_commands removable dir)) in
  r = List.find (deliverable removable dir) kinds
  /\ (forall f, In f dir' -> In f dir)
  /\ (forall f, In f dir -> unrecognized f -> In f dir')
  /\ (forall c, r = Some c ->
        glob (pattern c) dir' = []
        /\ forall c', (rank c < rank c')%nat ->
                      glob (pattern c') dir' = glob (pattern c') dir).
Proof.
  unfold check_for_commands, kinds, List.find.
  destruct (drain_spec removable Stop dir) as (A1 & B1 & C1 & D1 & E1).
  destruct (drain removable Stop dir) as [d1 dir1]. cbn [fst snd] in *.
  destruct (drain_spec removable DeleteNow dir1) as (A2 & B2 & C2 & D2 & E2).
  destruct (drain removable DeleteNow dir1) as [d2 dir2]. cbn [fst snd] in *.
  destruct (drain_spec removable Pause dir2) as (A3 & B3 & C3 & D3 & E3).
  destruct (drain removable Pause dir2) as [d3 dir3]. cbn [fst snd] in *.
  destruct (drain_spec removable Resume dir3) as (A4 & B4 & C4 & D4 & E4).
  destruct (drain removable Resume dir3) as [d4 dir4]. cbn [fst snd] in *.
  rewrite (deliverable_glob removable dir dir1 DeleteNow) in A2
    by (apply B1; discriminate).
  rewrite (deliverable_glob removable dir dir2 Pause) in A3
    by (rewrite B2, B1; [reflexivity | discriminate | discriminate]).
  rewrite (deliverable_glob removable dir dir3 Resume) in A4
    by (rewrite B3, B2, B1; [reflexivity | discriminate | discriminate | discriminate]).
  assert (N1 : d1 <> Removed -> deliverable removable dir Stop = false).
  { intros H. destruct (deliverable removable dir Stop); [|reflexivity].
    destruct H. now apply A1. }
  assert (N2 : d2 <> Removed -> deliverable removable dir DeleteNow = false).
  { intros H. destruct (deliverable removable dir DeleteNow); [|reflexivity].
    destruct H. now apply A2. }
  assert (N3 : d3 <> Removed -> deliverable removable dir Pause = false).
  { intros H. destruct (deliverable removable dir Pause); [|reflexivity].
    destruct H. now apply A3. }
  assert (N4 : d4 <> Removed -> deliverable removable dir Resume = false).
  { intros H. destruct (deliverable removable dir Resume); [|reflexivity].
    destruct H. now apply A4. }
  assert (K1 : d1 = Removed -> deliverable removable dir Stop = true) by apply A1.
  assert (K2 : d2 = Removed -> deliverable removable dir DeleteNow = true) by apply A2.
  assert (K3 : d3 = Removed -> deliverable removable dir Pause = true) by apply A3.
  assert (K4 : d4 = Removed -> deliverable removable dir Resume = true) by apply A4.
  clear A1 A2 A3 A4.
  destruct d1;
    [ specialize (N1 ltac:(discriminate)); clear K1
    | specialize (K1 eq_refl); clear N1
    | specialize (N1 ltac:(discriminate)); clear K1 ];
  (destruct d2;
    [ specialize (N2 ltac:(discriminate)); clear K2
    | specialize (K2 eq_refl); clear N2
    | specialize (N2 ltac:(discriminate)); clear K2 ]);
  (destruct d3;
    [ specialize (N3 ltac:(discriminate)); clear K3
    | specialize (K3 eq_refl); clear N3
    | specialize (N3 ltac:(discriminate)); clear K3 ]);
  (destruct d4;
    [ specialize (N4 ltac:(discriminate)); clear K4
    | specialize (K4 eq_refl); clear N4
    | specialize (N4 ltac:(discriminate)); clear K4 ]);
  cbn [fst snd];
  (split;
    [ repeat match goal with
             | H : deliverable _ _ _ = _ |- _ => rewrite H; clear H
             end; reflexivity |]);
  (split; [ intros f Hf; eauto 8 |]);
  (split; [ intros f Hf Hu; unfold unrecognized in Hu; eauto 12 |]);
  intros c Hc;
  first
    [ discriminate Hc
    | injection Hc as <-;
      split;
      [ eauto
      | intros c' Hlt;
        rewrite ?B4 by (intros ->; simpl in Hlt; lia);
        rewrite ?B3 by (intros ->; simpl in Hlt; lia);
        rewrite ?B2 by (intros ->; simpl in Hlt; lia);
        rewrite ?B1 by (intros ->; simpl in Hlt; lia);
        reflexivity ] ].
Qed.

Lemma check_for_commands_first_deliverable_aux (removable : string -> bool)
    (dir : list string) :
  fst (fst (check_for_commands removable dir))
  = List.find (deliverable removable dir) kinds.
Proof. apply (check_for_commands_spec removable dir). Qed.

(** X1: the command returned depends on the directory found only: it is
    the first kind, in the order of the blocks, that has a matching file
    and whose matching files can all be removed. *)
Theorem check_for_commands_first_deliverable (removable : string -> bool)
    (dir : list string) :
  fst (fst (check_for_commands removable dir))
  = List.find (deliverable removable dir) kinds.
Proof. apply (check_for_commands_spec removable dir). Qed.

(** X2: a poll removes only command files: what it leaves is part of what
    it found, a file no pattern matches is never removed, and when a
    command is returned the files of the kinds looked for after it are all
    still there. *)
Theorem check_for_commands_removes_only_commands (removable : string -> bool)
    (dir : list string) :
  let dir' := snd (fst (check_for_commands removable dir)) in
  (forall f, In f dir' -> In f dir)
  /\ (forall f, In f dir -> unrecognized f -> In f dir')
  /\ (forall c c',
        fst (fst (check_for_commands removable dir)) = Some c ->
        (rank c < rank c')%nat ->
        glob (pattern c') dir' = glob (pattern c') dir).
Proof.
  destruct (check_for_commands_spec removable dir) as (_ & Hsub & Hkeep & Hret).
  split; [exact Hsub|]. split; [exact Hkeep|].
  intros c c' Hc. now apply Hret.
Qed.

(** X3: a command that has been returned does not come again: none of its
    files is left, so a poll of the directory left behind returns another
    command or none, whatever happens to the removals then. *)
Theorem check_for_commands_no_replay (removable removable' : string -> bool)
    (dir : list string) (c : Command) :
  fst (fst (check_for_commands removable dir)) = Some c ->
  let dir' := snd (fst (check_for_commands removable dir)) in
  glob (pattern c) dir' = []
  /\ fst (fst (check_for_commands removable' dir')) <> Some c.
Proof.
  intros Hc dir'. subst dir'.
  destruct (check_for_commands_spec removable dir) as (_ & _ & _ & Hret).
  destruct (Hret c Hc) as [Hgone _]. split; [exact Hgone|].
  rewrite check_for_commands_first_deliverable_aux. intros Hfind.
  apply find_some in Hfind as [_ Hd].
  now rewrite (deliverable_needs_file removable' _ c Hgone) in Hd.
Qed.

Lemma fnmatch_star_cons (p : string) (c : ascii) (n : string) :
  PyStr.fnmatch (String "*" p) (String c n)
  = (PyStr.fnmatch p (String c n) || PyStr.fnmatch (String "*" p) n)%bool.
Proof. reflexivity. Qed.

Lemma fnmatch_star_here (p n : string) :
  PyStr.fnmatch p n = true -> PyStr.fnmatch (String "*" p) n = true.
Proof.
  intros H. destruct n as [|c n].
  - simpl. now rewrite H.
  - now rewrite fnmatch_star_cons, H.
Qed.

Lemma fnmatch_star_skip (p mid n : string) :
  PyStr.fnmatch p n = true ->
  PyStr.fnmatch (String "*" p) (mid +:+ n) = true.
Proof.
  intros H. induction mid as [|c mid IH].
  - rewrite append_nil. now apply fnmatch_star_here.
  - rewrite append_cons, fnmatch_star_cons, IH. apply orb_true_r.
Qed.

(** The name [sendCommand] writes for a known kind. *)
Lemma command_file_known (c : Command) (timestamp : Z) :
  Gui.command_file (command_name c) timestamp
  = match c with
    | Stop => "stop_"
    | DeleteNow => "delete_now_"
    | Pause => "pause_"
    | Resume => "resume_"
    end +:+ pretty timestamp +:+ ".json".
Proof. destruct c; reflexivity. Qed.

Lemma command_file_matches (c : Command) (timestamp : Z) :
  PyStr.fnmatch (pattern c) (Gui.command_file (command_name c) timestamp) = true.
Proof.
  rewrite command_file_known.
  destruct c; unfold pattern;
    rewrite ?append_cons, ?append_nil;
    rewrite !fnmatch_literal by discriminate;
    rewrite ?Ascii.eqb_refl; cbn [andb];
    apply fnmatch_star_skip; reflexivity.
Qed.

Lemma command_file_unknown (command : string) (timestamp : Z) :
  (forall c, command <> command_name c) ->
  Gui.command_file command timestamp = "command_" +:+ pretty timestamp +:+ ".json".
Proof.
  intros Hne. unfold Gui.command_file.
  destruct (String.eqb_spec command "stop") as [->|_]; [now destruct (Hne Stop)|].
  destruct (String.eqb_spec command "pause") as [->|_]; [now destruct (Hne Pause)|].
  destruct (String.eqb_spec command "resume") as [->|_]; [now destruct (Hne Resume)|].
  destruct (String.eqb_spec command "delete_now") as [->|_]; [now destruct (Hne DeleteNow)|].
  reflexivity.
Qed.

(** X4: the names [sendCommand] writes and the patterns [check_for_commands]
    reads agree: the file written for a kind matches the pattern of that
    kind and of no other, so a poll that finds it alone returns that kind
    and removes it; the file written for any other command matches no
    pattern and is left alone. *)
Theorem sent_command_is_received :
  (forall c c' timestamp,
      PyStr.fnmatch (pattern c') (Gui.command_file (command_name c) timestamp) = true
      <-> c' = c)
  /\ (forall c timestamp,
        check_for_commands (fun _ => true) [Gui.command_file (command_name c) timestamp]
        = (Some c, [], []))
  /\ (forall command timestamp removable,
        (forall c, command <> command_name c) ->
        unrecognized (Gui.command_file command timestamp)
        /\ check_for_commands removable [Gui.command_file command timestamp]
           = (None, [Gui.command_file command timestamp], [])).
Proof.
  assert (Hiff : forall c c' timestamp,
      PyStr.fnmatch (pattern c') (Gui.command_file (command_name c) timestamp) = true
      <-> c' = c).
  { intros c c' timestamp. split.
    - intros H. exact (patterns_disjoint c' c _ H (command_file_matches c timestamp)).
    - intros ->. apply command_file_matches. }
  split; [exact Hiff|]. split.
  - intros c timestamp.
    pose proof (command_file_matches c timestamp) as Hm.
    rewrite (check_for_commands_returns (fun _ => true) _ c).
    + simpl. now rewrite Hm.
    + unfold glob. simpl. now rewrite Hm.
    + intros c' Hlt. unfold glob. simpl.
      destruct (PyStr.fnmatch (pattern c') _) eqn:Hc'; [|reflexivity].
      apply Hiff in Hc'. subst c'. lia.
    + reflexivity.
  - intros command timestamp removable Hne.
    assert (Hun : unrecognized (Gui.command_file command timestamp)).
    { intros c. rewrite (command_file_unknown command timestamp Hne).
      destruct (PyStr.fnmatch (pattern c) _) eqn:Hc; [|reflexivity].
      apply pattern_first_char in Hc as [rest Hc]. destruct c; discriminate. }
    split; [exact Hun|].
    unfold check_for_commands.
    rewrite !drain_no_files; [reflexivity | ..];
      unfold glob; cbn [List.filter]; now rewrite (Hun _).
Qed.
End CommandChannel.

Section LoopExtras.
Import Monitor.

Lemma timeout_due_iff (cfg : Config) (inp : TickInput) (st : LoopState) :
  timeout_due cfg inp st = true <-> timeout_deletion (tick cfg inp st).
Proof.
  rewrite timeout_deletion_iff. unfold timeout_due.
  rewrite !andb_true_iff, negb_true_iff, Z.leb_le. tauto.
Qed.

Lemma deleted_ids_app (a b : list Event) :
  deleted_ids (a ++ b) = (deleted_ids a ++ deleted_ids b)%list.
Proof. apply flat_map_app. Qed.

Lemma deleted_ids_delete_each (delete_ok : nat -> Z -> bool) (k : nat)
    (instances : list Instance) :
  deleted_ids (snd (delete_each delete_ok k instances)) = usable_ids instances.
Proof.
  revert k. induction instances as [|i rest IH]; intros k; simpl; [reflexivity|].
  specialize (IH (S k)). destruct (delete_each delete_ok (S k) rest) as [b evs].
  cbn [snd] in IH. destruct (truthy_id (inst_id i)); cbn [snd]; simpl; now rewrite IH.
Qed.

Lemma deleted_ids_log (l : LogLine) (evs : list Event) :
  deleted_ids (Log l :: evs) = deleted_ids evs.
Proof. reflexivity. Qed.

Lemma deleted_ids_list (evs : list Event) :
  deleted_ids (ListInstances :: evs) = deleted_ids evs.
Proof. reflexivity. Qed.

Lemma deleted_ids_errors (errors : list Command) :
  deleted_ids (List.map (fun c => Log (RemoveError c)) errors) = [].
Proof. induction errors; simpl; auto. Qed.

Lemma deleted_ids_probe_edge (cfg : Config) (inp : TickInput) (st : LoopState) :
  deleted_ids (snd (probe_edge cfg inp st)) = [].
Proof.
  unfold probe_edge.
  assert (Hlog : deleted_ids
            match fst (scan (PyStr.split "," (processes_to_monitor cfg)) (procs inp)) with
            | Some (process_name, pid) => [Log (ProcessFound process_name pid)]
            | None => []
            end = []).
  { destruct (fst _) as [[process_name pid]|]; reflexivity. }
  destruct (Bool.eqb _ _); [exact Hlog|].
  destruct (is_process_running _ _); cbn [snd]; now rewrite deleted_ids_app, Hlog.
Qed.

Lemma deleted_ids_command_step (cfg : Config) (inp : TickInput) (st : LoopState) :
  deleted_ids (snd (fst (command_step cfg inp st)))
  = match received inp with
    | Some DeleteNow =>
        usable_ids (get_instances (reply_delete_now inp) (instance_identifier cfg))
    | _ => []
    end.
Proof.
  unfold command_step, received.
  destruct (check_for_commands _ _) as [[command dir] errors]. cbn [fst snd].
  destruct command as [[]|]; cbn [fst snd on_command];
    rewrite ?deleted_ids_app, ?deleted_ids_errors; try reflexivity.
  cbn [app]. rewrite deleted_ids_log, deleted_ids_list.
  destruct (get_instances _ _) as [|i l] eqn:Hl; [reflexivity|].
  apply deleted_ids_delete_each.
Qed.

Lemma deleted_ids_monitor (cfg : Config) (inp : TickInput) (st : LoopState) :
  deleted_ids (snd (monitor cfg inp st))
  = if (negb (is_process_running (processes_to_monitor cfg) (procs inp))
        && (timeout cfg <=? now_check inp - last_seen_running (fst (probe_edge cfg inp st))))%bool
    then usable_ids (get_instances (reply_timeout inp) (instance_identifier cfg))
    else [].
Proof.
  unfold monitor.
  destruct (probe_edge_spec cfg inp st) as (Hpr & _ & _ & _).
  pose proof (deleted_ids_probe_edge cfg inp st) as Hpe.
  destruct (probe_edge cfg inp st) as [st1 evs]. cbn [fst snd] in *.
  rewrite <- Hpr.
  destruct (process_running st1); cbn [negb andb].
  - cbn [snd]. now rewrite deleted_ids_app, Hpe.
  - replace (timeout cfg - (now_check inp - last_seen_running st1) <=? 0)
      with (timeout cfg <=? now_check inp - last_seen_running st1)
      by (destruct (Z.leb_spec (timeout cfg) (now_check inp - last_seen_running st1)),
                   (Z.leb_spec (timeout cfg - (now_check inp - last_seen_running st1)) 0);
          auto; lia).
    destruct (timeout cfg <=? _).
    + destruct (get_instances _ _) as [|i l] eqn:Hl.
      * cbn [snd]. now rewrite !deleted_ids_app, Hpe.
      * pose proof (deleted_ids_delete_each (delete_timeout_ok inp) 0 (i :: l)) as Hd.
        destruct (delete_each _ _ _) as [ok del_evs]. cbn [snd] in Hd.
        destruct ok; cbn [snd]; rewrite !deleted_ids_app, Hpe, Hd; simpl;
          now rewrite app_nil_r.
    + cbn [snd]. now rewrite deleted_ids_app, Hpe.
Qed.

(** X5: the identifiers an iteration calls [delete_instance] with are, in
    order: for a received [delete_now], the non-zero ids of the instances
    selected from its listing; then, when the timeout branch is reached,
    the non-zero ids of the instances selected from that branch's listing;
    and nothing else. *)
Theorem tick_deletes_selected_instances (cfg : Config) (inp : TickInput) (st : LoopState) :
  deleted_ids (events (tick cfg inp st))
  = (match received inp with
     | Some DeleteNow =>
         usable_ids (get_instances (reply_delete_now inp) (instance_identifier cfg))
     | _ => []
     end
     ++ if timeout_due cfg inp st
        then usable_ids (get_instances (reply_timeout inp) (instance_identifier cfg))
        else [])%list.
Proof.
  rewrite <- (deleted_ids_command_step cfg inp st). unfold timeout_due.
  destruct (monitoring cfg inp st) eqn:Hm.
  - destruct (tick_monitoring cfg inp st Hm)
      as (command & st1 & cevs & dir & Hc & _ & _ & H1 & H2 & _ & ->).
    cbn [events]. rewrite Hc, deleted_ids_app, deleted_ids_monitor. cbn [fst snd andb].
    now rewrite (last_active_at_ext cfg inp st st1 H1 H2).
  - destruct (tick_not_monitoring cfg inp st Hm)
      as (command & st1 & cevs & dir & Hc & _ & ->).
    cbn [events andb]. rewrite Hc. cbn [fst snd]. now rewrite app_nil_r.
Qed.

Lemma command_step_same_commands (cfg : Config) (inp inp' : TickInput) (st : LoopState) :
  same_commands inp inp' ->
  command_step cfg inp st = command_step cfg inp' st.
Proof.
  intros (H1 & H2 & H3 & H4). unfold command_step. rewrite H1, H2.
  destruct (check_for_commands _ _) as [[command dir] errors].
  destruct command as [[]|]; try reflexivity.
  unfold on_command. now rewrite H3, H4.
Qed.

(** X6: an iteration that does not reach the probe (stopped, or paused
    once its command is handled) reads nothing but the command channel
    and, for [delete_now], the API: its result and its effects are the same
    whatever the process table and the clock, and it leaves the recorded
    probe result and [last_seen_running] as they were. *)
Theorem unmonitored_tick_ignores_probe_and_clock (cfg : Config) (inp inp' : TickInput)
    (st : LoopState) :
  monitoring cfg inp st = false ->
  same_commands inp inp' ->
  tick cfg inp' st = tick cfg inp st
  /\ process_running (state (tick cfg inp st)) = process_running st
  /\ last_seen_running (state (tick cfg inp st)) = last_seen_running st
  /\ deleted_ids (events (tick cfg inp st))
     = match received inp with
       | Some DeleteNow =>
           usable_ids (get_instances (reply_delete_now inp) (instance_identifier cfg))
       | _ => []
       end.
Proof.
  intros Hm Hsame.
  assert (Hm' : monitoring cfg inp' st = false).
  { unfold monitoring in *. now rewrite <- (command_step_same_commands cfg inp inp' st Hsame). }
  destruct (tick_not_monitoring cfg inp st Hm) as (command & st1 & cevs & dir & Hc & _ & Ht).
  destruct (tick_not_monitoring cfg inp' st Hm') as (command' & st1' & cevs' & dir' & Hc' & _ & Ht').
  rewrite <- (command_step_same_commands cfg inp inp' st Hsame), Hc in Hc'.
  injection Hc' as <- <- <- <-.
  pose proof (command_step_spec cfg inp st) as Hs. rewrite Hc in Hs.
  destruct Hs as (H1 & H2 & _).
  split; [congruence|]. rewrite Ht. cbn [state events].
  split; [exact H1|]. split; [exact H2|].
  pose proof (deleted_ids_command_step cfg inp st) as Hd. now rewrite Hc in Hd.
Qed.

(** X7: the time spent paused counts.  Iterations that do not reach the
    probe leave [last_seen_running] alone, so when the loop is resumed the
    elapsed time is measured from before the pause, and the resuming
    iteration itself deletes if the grace period ran out meanwhile. *)
Theorem pause_does_not_stop_the_clock (cfg : Config) :
  (forall inputs st x,
      (forall y, In y (run cfg inputs st) ->
                 monitoring cfg (snd (fst y)) (fst (fst y)) = false) ->
      In x (run cfg inputs st) ->
      last_seen_running (state (snd x)) = last_seen_running st
      /\ process_running (state (snd x)) = process_running st)
  /\ (forall inp st,
        received inp = Some Resume ->
        process_running st = false ->
        is_process_running (processes_to_monitor cfg) (procs inp) = false ->
        timeout cfg <= now_check inp - last_seen_running st ->
        timeout_deletion (tick cfg inp st)).
Proof.
  split.
  - intros inputs. induction inputs as [|inp rest IH]; intros st x Hall Hx; [destruct Hx|].
    assert (Hm : monitoring cfg inp st = false).
    { apply (Hall (st, inp, tick cfg inp st)). simpl. now left. }
    assert (Hq : ~ timeout_deletion (tick cfg inp st)).
    { rewrite timeout_deletion_iff. intros [H _]. congruence. }
    destruct (quiet_tick_result cfg inp st Hq) as [_ Hr]. rewrite Hm in Hr.
    simpl in Hx. destruct Hx as [<- | Hx]; [exact Hr|].
    destruct (outcome (tick cfg inp st)) eqn:Ho; try destruct Hx.
    destruct Hr as [Hl Hp]. rewrite <- Hl, <- Hp.
    apply IH; [|exact Hx].
    intros y Hy. apply Hall. simpl. rewrite Ho. now right.
  - intros inp st Hres Hpr Hcur Hge. apply timeout_deletion_iff.
    assert (Hm : monitoring cfg inp st = true).
    { unfold monitoring, command_step. unfold received in Hres.
      destruct (check_for_commands _ _) as [[command dir] errors].
      cbn [fst] in Hres. subst command. reflexivity. }
    split; [exact Hm|]. split; [exact Hcur|].
    unfold last_active_at.
    destruct (probe_edge_spec cfg inp st) as (_ & _ & -> & _).
    now rewrite Hcur, Hpr.
Qed.

Lemma process_running_follows_probe_aux (cfg : Config) (inp : TickInput) (st : LoopState) :
  process_running (state (tick cfg inp st))
  = if monitoring cfg inp st
    then is_process_running (processes_to_monitor cfg) (procs inp)
    else process_running st.
Proof.
  destruct (timeout_deletion_dec cfg inp st) as [Hf | Hq].
  - pose proof Hf as Hd. apply timeout_deletion_iff in Hd as (-> & -> & _).
    now apply timeout_deletion_result in Hf as (_ & -> & _).
  - apply quiet_tick_result in Hq as [_ Hq].
    destruct (monitoring cfg inp st); tauto.
Qed.

(** X8: the recorded flag follows the probe: after an iteration that
    reaches the probe, [process_running] is the probe's result; after any
    other iteration it is what it was. *)
Theorem process_running_follows_probe (cfg : Config) (inp : TickInput) (st : LoopState) :
  process_running (state (tick cfg inp st))
  = if monitoring cfg inp st
    then is_process_running (processes_to_monitor cfg) (procs inp)
    else process_running st.
Proof. apply process_running_follows_probe_aux. Qed.

(** X9: with a clock that does not go back behind it, [last_seen_running]
    never moves backwards. *)
Theorem last_seen_running_moves_forward (cfg : Config) (inp : TickInput) (st : LoopState) :
  clock_after (last_seen_running st) inp ->
  last_seen_running st <= last_seen_running (state (tick cfg inp st)).
Proof. intros Hclock. apply tick_keeps_lower_bound; [lia | exact Hclock]. Qed.

Lemma monitor_ends_with_publish (cfg : Config) (inp : TickInput) (st : LoopState) :
  exists before status remaining,
    snd (monitor cfg inp st)
    = (before ++ [Publish status (process_running (fst (fst (monitor cfg inp st))))
                          remaining])%list.
Proof.
  unfold monitor. destruct (probe_edge cfg inp st) as [st1 evs].
  destruct (process_running st1) eqn:Hpr.
  - cbn [fst snd]. rewrite Hpr. eauto.
  - destruct (_ <=? 0).
    + destruct (get_instances _ _) as [|i l].
      * cbn [fst snd set_last_seen_running process_running]. rewrite Hpr.
        eexists ((evs ++ [Log TimeoutReached; ListInstances])
                 ++ [Log NoneFoundRetryInAMinute])%list, _, _.
        rewrite <- !app_assoc. reflexivity.
      * destruct (delete_each _ _ _) as [ok del_evs].
        destruct ok; cbn [fst snd set_last_seen_running process_running]; rewrite Hpr.
        -- eexists ((evs ++ [Log TimeoutReached; ListInstances])
                    ++ del_evs ++ [Log DeletedExiting])%list, _, _.
           rewrite <- !app_assoc. reflexivity.
        -- eexists ((evs ++ [Log TimeoutReached; ListInstances])
                    ++ del_evs ++ [Log FailedRetryLater])%list, _, _.
           rewrite <- !app_assoc. reflexivity.
    + cbn [fst snd]. rewrite Hpr. eauto.
Qed.

(** X10: every iteration that reaches the probe publishes a status as its
    last effect, and that status carries the probe result the iteration
    ends with. *)
Theorem monitoring_tick_ends_with_status (cfg : Config) (inp : TickInput) (st : LoopState) :
  monitoring cfg inp st = true ->
  exists before status remaining,
    events (tick cfg inp st)
    = (before ++ [Publish status
                          (is_process_running (processes_to_monitor cfg) (procs inp))
                          remaining])%list.
Proof.
  intros Hm. pose proof (process_running_follows_probe_aux cfg inp st) as Hp.
  rewrite Hm in Hp. rewrite <- Hp.
  destruct (tick_monitoring cfg inp st Hm)
    as (command & st1 & cevs & dir & _ & _ & _ & _ & _ & _ & ->).
  cbn [events state].
  destruct (monitor_ends_with_publish cfg inp st1) as (before & status & remaining & ->).
  exists (cevs ++ before)%list, status, remaining. now rewrite app_assoc.
Qed.

Lemma break_needs_listing (cfg : Config) (inp : TickInput) (st : LoopState) :
  outcome (tick cfg inp st) = Break ->
  timeout_deletion (tick cfg inp st)
  /\ get_instances (reply_timeout inp) (instance_identifier cfg) <> [].
Proof.
  intros Hb.
  destruct (timeout_deletion_dec cfg inp st) as [Hf | Hq].
  - split; [exact Hf|]. apply timeout_deletion_result in Hf as (_ & _ & Hf).
    intros Hnil. rewrite Hnil in Hf. destruct Hf as [_ Hf]. congruence.
  - apply quiet_tick_result in Hq as [Hq _]. contradiction.
Qed.

(** X11: when the listing has nothing to delete, because the request fails,
    the answer has no instance list, or no instance matches the selector,
    a due timeout deletes nothing, sets the retry one minute ahead and
    sleeps; and along a run in which this is so at every iteration the
    loop never ends through [break]. *)
Theorem empty_listing_keeps_loop_running (cfg : Config) :
  (forall identifier,
      get_instances ApiError identifier = []
      /\ get_instances ApiNoInstancesKey identifier = [])
  /\ (forall inp st,
        timeout_due cfg inp st = true ->
        get_instances (reply_timeout inp) (instance_identifier cfg) = [] ->
        outcome (tick cfg inp st) = Sleep CHECK_INTERVAL
        /\ last_seen_running (state (tick cfg inp st))
           = now_reset inp - timeout cfg + MINUTE)
  /\ (forall inputs st x,
        (forall inp, In inp inputs ->
                     get_instances (reply_timeout inp) (instance_identifier cfg) = []) ->
        In x (run cfg inputs st) ->
        outcome (snd x) <> Break).
Proof.
  split; [intros identifier; split; reflexivity|]. split.
  - intros inp st Hdue Hnil. apply timeout_due_iff in Hdue.
    apply timeout_deletion_result in Hdue as (_ & _ & Hr). rewrite Hnil in Hr. tauto.
  - intros inputs. induction inputs as [|inp rest IH]; intros st x Hall Hx; [destruct Hx|].
    simpl in Hx. destruct Hx as [<- | Hx].
    + cbn [snd]. intros Hb. apply break_needs_listing in Hb as [_ Hb].
      apply Hb, Hall. now left.
    + destruct (outcome (tick cfg inp st)); try destruct Hx.
      apply (IH (state (tick cfg inp st))); [|exact Hx].
      intros inp' Hin. apply Hall. now right.
Qed.

End LoopExtras.

(** ** Decimal strings *)

Lemma digit_of_pretty_char (x : N) :
  (x < 10)%N -> PyStr.digit_of (pretty_N_char x) = Some (Z.of_N x).
Proof.
  intros H.
  assert (x = 0 \/ x = 1 \/ x = 2 \/ x = 3 \/ x = 4 \/ x = 5 \/ x = 6
          \/ x = 7 \/ x = 8 \/ x = 9)%N as Hx by lia.
  repeat (destruct Hx as [-> | Hx]; [reflexivity|]). subst x. reflexivity.
Qed.

Lemma digits_pretty_go (x : N) :
  (0 < x)%N ->
  forall s b,
    PyStr.digits 0 b (pretty_N_go x s) = PyStr.digits (Z.of_N x) true s.
Proof.
  induction (N.lt_wf_0 x) as [x _ IH]. intros Hx s b.
  rewrite pretty_N_go_step by exact Hx.
  assert (Hd : PyStr.digit_of (pretty_N_char (x `mod` 10)) = Some (Z.of_N (x `mod` 10)%N)).
  { apply digit_of_pretty_char. apply N.mod_lt. lia. }
  assert (Hdm : Z.of_N x = 10 * Z.of_N (x `div` 10)%N + Z.of_N (x `mod` 10)%N).
  { rewrite (N.div_mod x 10) at 1 by lia. lia. }
  destruct (N.eq_dec (x `div` 10)%N 0%N) as [H0 | Hpos].
  - rewrite H0 in *. rewrite pretty_N_go_0. simpl. rewrite Hd. f_equal. lia.
  - assert (H1 : (x `div` 10 < x)%N) by (apply N.div_lt; lia).
    assert (H2 : (0 < x `div` 10)%N) by (apply N.neq_0_lt_0; exact Hpos).
    rewrite (IH _ H1 H2).
    simpl. rewrite Hd. f_equal. lia.
Qed.

Lemma all_chars_pretty_go (p : ascii -> bool) (x : N) :
  (forall d, (d < 10)%N -> p (pretty_N_char d) = true) ->
  forall s, all_chars p s = true -> all_chars p (pretty_N_go x s) = true.
Proof.
  intros Hp. induction (N.lt_wf_0 x) as [x _ IH]. intros s Hs.
  destruct (N.eq_dec x 0%N) as [-> | Hx]; [now rewrite pretty_N_go_0|].
  rewrite pretty_N_go_step by lia. apply IH; [apply N.div_lt; lia|].
  simpl. rewrite Hs, Hp; [reflexivity | apply N.mod_lt; lia].
Qed.

Lemma pretty_char_not_space (d : N) :
  (d < 10)%N -> negb (PyStr.is_space (pretty_N_char d)) = true.
Proof.
  intros H.
  assert (d = 0 \/ d = 1 \/ d = 2 \/ d = 3 \/ d = 4 \/ d = 5 \/ d = 6
          \/ d = 7 \/ d = 8 \/ d = 9)%N as Hx by lia.
  repeat (destruct Hx as [-> | Hx]; [reflexivity|]). subst d. reflexivity.
Qed.

Lemma lstrip_no_space (s : string) :
  all_chars (fun c => negb (PyStr.is_space c)) s = true -> PyStr.lstrip s = s.
Proof.
  destruct s as [|c s]; [reflexivity|]. simpl. intros H.
  apply andb_true_iff in H as [H _]. apply negb_true_iff in H. now rewrite H.
Qed.

Lemma rstrip_no_space (s : string) :
  all_chars (fun c => negb (PyStr.is_space c)) s = true -> PyStr.rstrip s = s.
Proof.
  induction s as [|c s IH]; [reflexivity|]. simpl. intros H.
  apply andb_true_iff in H as [Hc Hs]. apply negb_true_iff in Hc.
  rewrite (IH Hs). destruct s; [now rewrite Hc | reflexivity].
Qed.

Lemma strip_no_space (s : string) :
  all_chars (fun c => negb (PyStr.is_space c)) s = true -> PyStr.strip s = s.
Proof.
  intros H. unfold PyStr.strip. now rewrite (lstrip_no_space s H), (rstrip_no_space s H).
Qed.

Lemma int_unsigned (t : string) (n : Z) :
  PyStr.strip t = t ->
  PyStr.digits 0 false t = Some n ->
  PyStr.int t = Some n.
Proof.
  intros Hs Hd. unfold PyStr.int. rewrite Hs.
  destruct t as [|c r]; [exact Hd|].
  destruct c as [[] [] [] [] [] [] [] []]; try exact Hd; simpl in Hd; discriminate.
Qed.

Lemma pretty_positive_spec (p : positive) :
  PyStr.digits 0 false (pretty p) = Some (Zpos p)
  /\ all_chars (fun c => negb (PyStr.is_space c)) (pretty p) = true.
Proof.
  unfold pretty, pretty_positive, pretty, pretty_N.
  destruct (decide (N.pos p = 0%N)) as [H|_]; [discriminate|]. split.
  - rewrite digits_pretty_go by lia. reflexivity.
  - apply all_chars_pretty_go; [apply pretty_char_not_space | reflexivity].
Qed.

(** [int(str(n))] is [n]. *)
Lemma int_pretty (n : Z) : PyStr.int (pretty n) = Some n.
Proof.
  destruct n as [|p|p]; [reflexivity | |].
  - destruct (pretty_positive_spec p) as [Hd Hs].
    apply int_unsigned; [now apply strip_no_space | exact Hd].
  - destruct (pretty_positive_spec p) as [Hd Hs].
    change (pretty (Z.neg p)) with ("-" +:+ pretty p).
    unfold PyStr.int. rewrite strip_no_space.
    + rewrite append_cons, append_nil. now rewrite Hd.
    + rewrite append_cons, append_nil. simpl. exact Hs.
Qed.

(** X13: the selector the GUI stores for a chosen instance is [str(id)];
    [get_instances] reads it back as that identifier and returns exactly
    the listed instances that carry it, whatever their labels; and any
    other spelling [int] accepts for the identifier selects the same. *)
Theorem selector_of_chosen_instance (instance_id : Z) (instances : list Instance)
    (i : Instance) :
  PyStr.int (pretty instance_id) = Some instance_id
  /\ (In i (Monitor.get_instances (ApiInstances instances) (pretty instance_id)) <->
      In i instances /\ inst_id i = Some instance_id)
  /\ (forall identifier reply,
        PyStr.int identifier = Some instance_id ->
        Monitor.get_instances reply identifier
        = Monitor.get_instances reply (pretty instance_id)).
Proof.
  pose proof (int_pretty instance_id) as Hint. split; [exact Hint|].
  unfold Monitor.get_instances. rewrite Hint.
  destruct (pretty instance_id) as [|c s] eqn:Hp; [discriminate|]. cbn [PyStr.truthy].
  split.
  - rewrite filter_In. unfold Monitor.id_is.
    destruct (inst_id i) as [m|]; [rewrite Z.eqb_eq|]; split; intros [H1 H2];
      split; congruence.
  - intros identifier reply Hid. rewrite Hid.
    destruct identifier; [discriminate|]. reflexivity.
Qed.

(** ** More on the status publisher *)

Lemma append_length (a b : string) :
  String.length (a +:+ b) = (String.length a + String.length b)%nat.
Proof. induction a as [|c a IH]; [reflexivity|]. rewrite append_cons. simpl. now rewrite IH. Qed.

Lemma append_cancel_r (a b s : string) : a +:+ s = b +:+ s -> a = b.
Proof.
  revert b. induction a as [|c a IH]; intros b H.
  - destruct b as [|d b]; [reflexivity|].
    apply (f_equal String.length) in H. rewrite append_nil, append_cons in H.
    simpl in H. rewrite append_length in H. lia.
  - destruct b as [|d b].
    + apply (f_equal String.length) in H. rewrite append_nil, append_cons in H.
      simpl in H. rewrite append_length in H. lia.
    + rewrite !append_cons in H. injection H as -> H. f_equal. now apply IH.
Qed.

Lemma status_file_same_second (t t' : Z) :
  Monitor.status_file t = Monitor.status_file t' <->
  t `quot` 1000000 = t' `quot` 1000000.
Proof.
  unfold Monitor.status_file. split; [|now intros ->].
  intros H. apply String.app_inj in H. apply append_cancel_r in H.
  now apply pretty_Z_inj in H.
Qed.

(** X14: a status written in another second is never touched: a call of
    [update_status] makes its record readable under its file name and
    leaves every file named after another second as it was, so it adds
    one file when no status was written in its second yet. *)
Theorem update_status_keeps_other_seconds (t_stamp t_name : Z) (status : string)
    (running : bool) (remaining : option string) (dir : gmap string Monitor.StatusData) :
  let dir' := Monitor.update_status t_stamp t_name status running remaining dir in
  dir' !! Monitor.status_file t_name
  = Some {| Monitor.timestamp := t_stamp; Monitor.status := status;
            Monitor.sd_process_running := running;
            Monitor.time_remaining := remaining |}
  /\ (forall t, t `quot` 1000000 <> t_name `quot` 1000000 ->
                dir' !! Monitor.status_file t = dir !! Monitor.status_file t)
  /\ (dir !! Monitor.status_file t_name = None -> size dir' = S (size dir)).
Proof.
  unfold Monitor.update_status. cbn zeta. split; [apply lookup_insert_eq|]. split.
  - intros t Hne. apply lookup_insert_ne. rewrite status_file_same_second. congruence.
  - intros Hnone. now apply map_size_insert_None.
Qed.

(** ** More on the stand-alone loop *)

Lemma standalone_deleted_ids_app (a b : list Standalone.Event) :
  standalone_deleted_ids (a ++ b)
  = (standalone_deleted_ids a ++ standalone_deleted_ids b)%list.
Proof. apply flat_map_app. Qed.

Lemma standalone_deleted_ids_delete_each (delete_ok : nat -> Z -> bool) (k : nat)
    (instances : list Instance) :
  standalone_deleted_ids (Standalone.delete_each delete_ok k instances)
  = standalone_usable_ids instances.
Proof.
  revert k. induction instances as [|i rest IH]; intros k; simpl; [reflexivity|].
  destruct (Standalone.id_of i) as [instance_id|]; [|apply IH].
  cbn [standalone_deleted_ids flat_map app]. fold (standalone_deleted_ids).
  rewrite standalone_deleted_ids_app, IH.
  now destruct (delete_ok k instance_id).
Qed.

Lemma standalone_step_cases (cfg : Standalone.Config) (inp : Standalone.TickInput)
    (st : Standalone.LoopState) :
  let listing := Standalone.get_instances (Standalone.sdk_reply inp)
                   (Standalone.rest_reply inp) (Standalone.instance_label cfg) in
  Standalone.step cfg inp st
  = if Standalone.is_process_running (Standalone.process_names cfg) (Standalone.procs inp)
    then ({| Standalone.last_active_time := Standalone.now_active inp;
             Standalone.instances_terminated := false |}, [])
    else if standalone_due cfg inp st
    then match listing with
         | [] => (st, [Standalone.ListInstances])
         | _ => ({| Standalone.last_active_time := Standalone.last_active_time st;
                    Standalone.instances_terminated := true |},
                 Standalone.ListInstances
                 :: Standalone.delete_each (Standalone.delete_ok inp) 0 listing)
         end
    else (st, []).
Proof.
  unfold Standalone.step, standalone_due.
  destruct (Standalone.is_process_running _ _); [reflexivity|]. cbn [negb andb].
  destruct (_ && _)%bool; [|reflexivity].
  now destruct (Standalone.get_instances _ _ _).
Qed.

Lemma standalone_tick_deletions_aux (cfg : Standalone.Config) (inp : Standalone.TickInput)
    (st : Standalone.LoopState) :
  standalone_deleted_ids (snd (Standalone.tick cfg inp st))
  = (if standalone_due cfg inp st
     then standalone_usable_ids
            (Standalone.get_instances (Standalone.sdk_reply inp) (Standalone.rest_reply inp)
                                      (Standalone.instance_label cfg))
     else [])
  /\ Standalone.last_active_time (fst (Standalone.tick cfg inp st))
     = (if Standalone.is_process_running (Standalone.process_names cfg)
                                         (Standalone.procs inp)
        then Standalone.now_active inp
        else Standalone.last_active_time st).
Proof.
  unfold Standalone.tick. rewrite standalone_step_cases. cbv zeta.
  destruct (Standalone.is_process_running _ _) eqn:Hp.
  - assert (Hdue : standalone_due cfg inp st = false)
      by (unfold standalone_due; now rewrite Hp).
    rewrite Hdue. split; reflexivity.
  - destruct (standalone_due cfg inp st); [|split; reflexivity].
    destruct (Standalone.get_instances _ _ _) as [|i l] eqn:Hl; cbn [fst snd].
    + split; reflexivity.
    + split; [|reflexivity].
      rewrite standalone_deleted_ids_app. cbn [standalone_deleted_ids flat_map app].
      fold (standalone_deleted_ids).
      rewrite standalone_deleted_ids_delete_each. simpl. now rewrite app_nil_r.
Qed.


Lemma standalone_idle_when_terminated (cfg : Standalone.Config)
    (inputs : list Standalone.TickInput) (st : Standalone.LoopState) :
  Standalone.instances_terminated st = true ->
  (forall inp, In inp inputs ->
     Standalone.is_process_running (Standalone.process_names cfg) (Standalone.procs inp)
     = false) ->
  forall y, In y (Standalone.run cfg inputs st) ->
    y = (st, [Standalone.SleepFor (Standalone.check_interval cfg)]).
Proof.
  intros Hterm. induction inputs as [|inp rest IH]; intros Hall y Hy; [destruct Hy|].
  assert (Ht : Standalone.tick cfg inp st
               = (st, [Standalone.SleepFor (Standalone.check_interval cfg)])).
  { unfold Standalone.tick, Standalone.step.
    rewrite (Hall inp (or_introl eq_refl)), Hterm. now rewrite andb_false_r. }
  simpl in Hy. rewrite Ht in Hy. cbn [fst] in Hy. destruct Hy as [<- | Hy]; [reflexivity|].
  apply IH; [|exact Hy]. intros inp' Hin. apply Hall. now right.
Qed.

(** X16: one attempt per period of inactivity.  As long as the probe keeps
    reporting not-running, the stand-alone loop calls [delete_instance] in
    at most one iteration: every iteration after it only sleeps, whether
    the deletions succeeded or not. *)
Theorem standalone_deletes_once_per_episode (cfg : Standalone.Config)
    (inputs : list Standalone.TickInput) :
  (forall inp, In inp inputs ->
     Standalone.is_process_running (Standalone.process_names cfg) (Standalone.procs inp)
     = false) ->
  forall st before x after,
    Standalone.run cfg inputs st = (before ++ x :: after)%list ->
    standalone_deleted_ids (snd x) <> [] ->
    forall y, In y after ->
      snd y = [Standalone.SleepFor (Standalone.check_interval cfg)].
Proof.
  induction inputs as [|inp rest IH]; intros Hall st before x after Hrun Hdel y Hy.
  - destruct before; discriminate.
  - simpl in Hrun. destruct before as [|b before]; simpl in Hrun.
    + injection Hrun as <- <-.
      assert (Hterm : Standalone.instances_terminated (fst (Standalone.tick cfg inp st)) = true).
      { destruct (standalone_tick_deletions_aux cfg inp st) as [Hd _].
        unfold Standalone.tick in *. rewrite standalone_step_cases in *. cbv zeta in *.
        rewrite (Hall inp (or_introl eq_refl)) in *.
        destruct (standalone_due cfg inp st); [|now destruct Hdel].
        destruct (Standalone.get_instances _ _ _); [now destruct Hdel | reflexivity]. }
      rewrite (standalone_idle_when_terminated cfg rest _ Hterm
                 (fun inp' Hin => Hall inp' (or_intror Hin)) y Hy).
      reflexivity.
    + injection Hrun as _ Hrun.
      apply (IH (fun inp' Hin => Hall inp' (or_intror Hin)) _ before x after Hrun Hdel y Hy).
Qed.

Lemma filter_label_null (instance_label : string) (instances : list Instance) :
  (exists i, In i instances /\ inst_label i = LabelNull) ->
  Standalone.filter_label instance_label instances = None.
Proof.
  intros (i & Hin & Hnull). induction instances as [|j rest IH]; [destruct Hin|].
  simpl. destruct Hin as [-> | Hin].
  - now rewrite Hnull.
  - rewrite (IH Hin). now destruct (inst_label j).
Qed.

(** X17: in the stand-alone script a single instance whose label is [null]
    hides every instance from a non-empty selector: the filter raises, the
    REST path answers with the empty list, the SDK path falls back to the
    REST path, and an iteration whose listings both hold such an instance
    deletes nothing. *)
Theorem standalone_null_label_hides_instances (instance_label : string)
    (instances : list Instance) :
  instance_label <> "" ->
  (exists i, In i instances /\ inst_label i = LabelNull) ->
  Standalone.get_instances_rest (ApiInstances instances) instance_label = []
  /\ (forall reply,
        Standalone.get_instances (Some instances) reply instance_label
        = Standalone.get_instances_rest reply instance_label)
  /\ (forall cfg inp st,
        Standalone.instance_label cfg = instance_label ->
        Standalone.rest_reply inp = ApiInstances instances ->
        (Standalone.sdk_reply inp = None \/ Standalone.sdk_reply inp = Some instances) ->
        standalone_deleted_ids (snd (Standalone.tick cfg inp st)) = []).
Proof.
  intros Hne Hnull.
  assert (Hrest : Standalone.get_instances_rest (ApiInstances instances) instance_label = []).
  { unfold Standalone.get_instances_rest.
    now rewrite (truthy_nonempty _ Hne), (filter_label_null _ _ Hnull). }
  assert (Hsdk : forall reply,
             Standalone.get_instances (Some instances) reply instance_label
             = Standalone.get_instances_rest reply instance_label).
  { intros reply. unfold Standalone.get_instances.
    now rewrite (truthy_nonempty _ Hne), (filter_label_null _ _ Hnull). }
  split; [exact Hrest|]. split; [exact Hsdk|].
  intros cfg inp st Hlabel Hreply Hs.
  destruct (standalone_tick_deletions_aux cfg inp st) as [-> _].
  destruct (standalone_due cfg inp st); [|reflexivity].
  rewrite Hlabel, Hreply.
  destruct Hs as [-> | ->]; [| rewrite Hsdk]; cbn [Standalone.get_instances];
    now rewrite Hrest.
Qed.

(** ** More on the probes *)

Lemma append_empty_r (s : string) : s +:+ "" = s.
Proof. induction s as [|c s IH]; [reflexivity|]. now rewrite append_cons, IH. Qed.

Lemma exact_hit_substring_hit (names : list string) (p : Proc) :
  exact_hit names p -> substring_hit names p.
Proof.
  intros (pid & name & entry & Hp & Hin & Heq).
  exists pid, name, entry. repeat split; auto.
  exists "", "". unfold equals_ignoring_case in Heq.
  now rewrite append_nil, append_empty_r.
Qed.

(** X18: the two probes compared: whenever the exact-match probe of the
    stand-alone script reports running for the stripped watch list, the
    substring probe of [monitor_process.py] reports running for the same
    list and process table. *)
Theorem exact_match_implies_substring_match (process_names : string) (procs : list Proc) :
  Standalone.is_process_running (watch_list process_names) procs = true ->
  Monitor.is_process_running process_names procs = true.
Proof.
  rewrite standalone_probe_iff, monitor_probe_iff.
  intros (p & Hin & Hp). exists p. split; [exact Hin|].
  now apply exact_hit_substring_hit.
Qed.


(** ** The further statements at work on concrete situations *)

(** Two pause files beside a file of no kind: the poll returns [pause],
    no pause file is left, and the next poll does not return [pause]
    even if nothing can be removed then. *)
Lemma check_for_commands_no_replay_witness :
  let dir := ["pause_1700000600.json"; "notes.txt"; "pause_1700000601.json"] in
  let polled := Monitor.check_for_commands (fun _ => true) dir in
  fst (fst polled) = Some Monitor.Pause
  /\ Monitor.glob (Monitor.pattern Monitor.Pause) (snd (fst polled)) = []
  /\ fst (fst (Monitor.check_for_commands (fun _ => false) (snd (fst polled))))
     <> Some Monitor.Pause.
Proof.
  intros dir polled.
  assert (H : fst (fst polled) = Some Monitor.Pause) by reflexivity.
  split; [exact H|].
  exact (check_for_commands_no_replay (fun _ => true) (fun _ => false) dir Monitor.Pause H).
Defined.

(** A paused loop: the iteration is the same with the workload absent
    after 700 seconds and with the workload present after 9000 seconds. *)
Lemma unmonitored_tick_ignores_probe_and_clock_witness :
  let st := {| Monitor.process_running := false;
               Monitor.last_seen_running := 0;
               Monitor.paused := true |} in
  let inp := Scenario.input [] Scenario.idle_table 700 (ApiInstances [Scenario.xtts]) true in
  let inp' := Scenario.input [] Scenario.busy_table 9000 (ApiInstances [Scenario.xtts]) true in
  monitoring Scenario.cfg inp st = false
  /\ same_commands inp inp'
  /\ Monitor.tick Scenario.cfg inp' st = Monitor.tick Scenario.cfg inp st
  /\ Monitor.last_seen_running (Monitor.state (Monitor.tick Scenario.cfg inp st)) = 0.
Proof.
  intros st inp inp'.
  assert (Hm : monitoring Scenario.cfg inp st = false) by reflexivity.
  assert (Hs : same_commands inp inp') by (repeat split; reflexivity).
  split; [exact Hm|]. split; [exact Hs|].
  destruct (unmonitored_tick_ignores_probe_and_clock Scenario.cfg inp inp' st Hm Hs)
    as (H1 & _ & H2 & _).
  split; [exact H1 | exact H2].
Defined.

(** The first iteration of a loop started at the instant 0, ten minutes
    later. *)
Lemma last_seen_running_moves_forward_witness :
  let st := Monitor.initial 0 in
  let inp := Scenario.input [] Scenario.idle_table 600 ApiError true in
  clock_after (Monitor.last_seen_running st) inp
  /\ Monitor.last_seen_running st
     <= Monitor.last_seen_running (Monitor.state (Monitor.tick Scenario.cfg inp st)).
Proof.
  intros st inp.
  assert (H : clock_after (Monitor.last_seen_running st) inp)
    by (vm_compute; repeat split; discriminate).
  split; [exact H|].
  exact (last_seen_running_moves_forward Scenario.cfg inp st H).
Defined.

(** The workload is found running: the iteration ends with a status that
    says so. *)
Lemma monitoring_tick_ends_with_status_witness :
  let st := Monitor.initial 0 in
  let inp := Scenario.input [] Scenario.busy_table 30 ApiError true in
  monitoring Scenario.cfg inp st = true
  /\ exists before status remaining,
       Monitor.events (Monitor.tick Scenario.cfg inp st)
       = (before ++ [Monitor.Publish status true remaining])%list.
Proof.
  intros st inp.
  assert (H : monitoring Scenario.cfg inp st = true) by reflexivity.
  split; [exact H|].
  exact (monitoring_tick_ends_with_status Scenario.cfg inp st H).
Defined.

(** The stand-alone loop after sixteen, seventeen and eighteen minutes
    without the workload, every deletion failing: the first iteration
    tries instance 7, the next two only sleep. *)
Lemma standalone_deletes_once_per_episode_witness :
  let inputs := [Scenario.standalone_input 16 false;
                 Scenario.standalone_input 17 false;
                 Scenario.standalone_input 18 false] in
  let st := {| Standalone.last_active_time := 0;
               Standalone.instances_terminated := false |} in
  let x := Standalone.tick Scenario.standalone_cfg (Scenario.standalone_input 16 false) st in
  let after := Standalone.run Scenario.standalone_cfg
                 [Scenario.standalone_input 17 false; Scenario.standalone_input 18 false]
                 (fst x) in
  Standalone.run Scenario.standalone_cfg inputs st = x :: after
  /\ standalone_deleted_ids (snd x) = [7]
  /\ length after = 2%nat
  /\ Forall (fun y => snd y = [Standalone.SleepFor 60]) after.
Proof.
  intros inputs st x after.
  assert (Hrun : Standalone.run Scenario.standalone_cfg inputs st = ([] ++ x :: after)%list)
    by reflexivity.
  assert (Hdel : standalone_deleted_ids (snd x) = [7]) by reflexivity.
  assert (Hidle : forall inp, In inp inputs ->
            Standalone.is_process_running
              (Standalone.process_names Scenario.standalone_cfg) (Standalone.procs inp)
            = false).
  { intros inp [<- | [<- | [<- | []]]]; reflexivity. }
  assert (Hne : standalone_deleted_ids (snd x) <> []) by (rewrite Hdel; discriminate).
  split; [exact Hrun|]. split; [exact Hdel|]. split; [reflexivity|].
  apply List.Forall_forall. intros y Hy.
  exact (standalone_deletes_once_per_episode Scenario.standalone_cfg inputs Hidle
           st [] x after Hrun Hne y Hy).
Defined.

(** The instance labelled XTTS listed beside an instance whose label is
    [null]: the stand-alone script finds nothing. *)
Lemma standalone_null_label_hides_instances_witness :
  let unlabelled := {| inst_id := Some 9; inst_instance_id := None;
                       inst_label := LabelNull |} in
  let instances := [Scenario.xtts; unlabelled] in
  "XTTS" <> ""
  /\ (exists i, In i instances /\ inst_label i = LabelNull)
  /\ Standalone.get_instances_rest (ApiInstances instances) "XTTS" = []
  /\ Standalone.get_instances (Some instances) (ApiInstances instances) "XTTS" = [].
Proof.
  intros unlabelled instances.
  assert (Hne : "XTTS" <> "") by discriminate.
  assert (Hnull : exists i, In i instances /\ inst_label i = LabelNull).
  { exists unlabelled. split; [right; left; reflexivity | reflexivity]. }
  split; [exact Hne|]. split; [exact Hnull|].
  destruct (standalone_null_label_hides_instances "XTTS" instances Hne Hnull)
    as (Hrest & Hsdk & _).
  split; [exact Hrest|]. rewrite Hsdk. exact Hrest.
Defined.

(** A watch list whose first entry is the name of a running process, up
    to case. *)
Lemma exact_match_implies_substring_match_witness :
  Standalone.is_process_running (watch_list "skyrimvr.exe, skyrim.exe") Scenario.busy_table
  = true
  /\ Monitor.is_process_running "skyrimvr.exe, skyrim.exe" Scenario.busy_table = true.
Proof.
  assert (H : Standalone.is_process_running (watch_list "skyrimvr.exe, skyrim.exe")
                Scenario.busy_table = true) by reflexivity.
  split; [exact H|].
  exact (exact_match_implies_substring_match _ _ H).
Defined.

